(** * IFRNet command-line tools: frame-rate upconverter and checkpoint fetcher

  A shallow embedding of [interpolate_video.py] and
  [download_checkpoints.py].  Python values are modelled as the code
  has them: [float] as IEEE 754 binary64 ([spec_float] at precision 53),
  [int] as [Z], lists as [list], dictionaries as [gmap].  Effects are
  explicit: the upconverter runs in a trace-and-exception monad, the
  fetcher in a state-and-exception monad over a file system and the
  scripted answers of the remote server. *)

From Stdlib Require Import ZArith List Bool Lia.
From Stdlib Require Import Floats.SpecFloat.
From stdpp Require Import base option list gmap strings.

Local Open Scope Z_scope.

(** ** Python values and exceptions *)

Module Py.

(** The exception classes the two scripts can meet. *)
Inductive exn : Type :=
| ZeroDivisionError
| ValueError
| OverflowError
| IndexError
| TypeError
| RuntimeError
| FileNotFoundError
| FileExistsError
| NotADirectoryError
| IsADirectoryError
| RequestException
| BadZipFile
| ZlibError
| OtherError.

#[global] Instance exn_eq_dec : EqDecision exn.
Proof. solve_decision. Defined.

(** Python's [float] is binary64. *)
Definition prec : Z := 53.
Definition emax : Z := 1024.
Definition float : Type := spec_float.

(** [float(n)] for an [int] that is in range. *)
Definition float_of_int (n : Z) : float := binary_normalize prec emax n 0 false.

Definition is_zero (x : float) : bool :=
  match x with S754_zero _ => true | _ => false end.

(** [x / y] on two floats: Python raises on a zero divisor, and is the
    IEEE quotient otherwise. *)
Definition float_truediv (x y : float) : exn + float :=
  if is_zero y then inl ZeroDivisionError else inr (SFdiv prec emax x y).

(** [a / b] on two ints: the correctly rounded quotient (round half to
    even), whatever the size of the operands. *)
Definition quotient (a b : Z) : float :=
  let '(mz, ez, lz) := SFdiv_core_binary prec emax (Z.abs a) 0 (Z.abs b) 0 in
  binary_round_aux prec emax (xorb (a <? 0) (b <? 0)) mz ez lz.

Definition int_truediv (a b : Z) : exn + float :=
  if b =? 0 then inl ZeroDivisionError
  else if a =? 0 then inr (S754_zero (b <? 0))
  else
    match quotient a b with
    | S754_infinity _ => inl OverflowError
    | q => inr q
    end.

(** [round(x)] with one argument on a float: the nearest integer, ties to
    the even one; [nan] and the infinities raise. *)
Definition round_half_even (m : positive) (e : Z) : Z :=
  match e with
  | Zneg p =>
      let d := Z.pow 2 (Zpos p) in
      let q := Zpos m / d in
      let r := Zpos m mod d in
      match Z.compare (2 * r) d with
      | Lt => q
      | Gt => q + 1
      | Eq => if Z.even q then q else q + 1
      end
  | _ => Zpos m * Z.pow 2 e
  end.

Definition float_round (x : float) : exn + Z :=
  match x with
  | S754_zero _ => inr 0
  | S754_infinity _ => inl OverflowError
  | S754_nan => inl ValueError
  | S754_finite s m e =>
      inr (if s then - round_half_even m e else round_half_even m e)
  end.

(** A name bound first to a float and then to an int, as [factor] is. *)
Inductive number : Type :=
| Float (x : float)
| Int (n : Z).

(** [round(v)]: an int rounds to itself. *)
Definition round (v : number) : exn + Z :=
  match v with
  | Float x => float_round x
  | Int n => inr n
  end.

(** [x <= n] for a float and an int literal; false on [nan]. *)
Definition float_le_int (x : float) (n : Z) : bool :=
  SFleb x (float_of_int n).

(** [range(lo, hi)]. *)
Definition range (lo hi : Z) : list Z :=
  map (fun i : nat => lo + Z.of_nat i) (seq 0 (Z.to_nat (hi - lo))).

(** [l[i]], a negative index counting from the end. *)
Definition getitem {A : Type} (l : list A) (i : Z) : exn + A :=
  let n := Z.of_nat (length l) in
  let j := if i <? 0 then i + n else i in
  if (j <? 0) || (n <=? j) then inl IndexError
  else match nth_error l (Z.to_nat j) with
       | Some x => inr x
       | None => inl IndexError
       end.

(** The float 1.5. *)
Definition three_halves : float := binary_normalize prec emax 3 (-1) false.

End Py.


(** ** A trace-and-exception monad

  A computation yields the events it performed, in order, and either the
  exception that stopped it or its value. *)

Module Trace.
Section Monad.
Context {event : Type}.

Definition M (A : Type) : Type := list event * (Py.exn + A).

Definition ret {A} (x : A) : M A := ([], inr x).

Definition raise {A} (e : Py.exn) : M A := ([], inl e).

Definition bind {A B} (c : M A) (k : A -> M B) : M B :=
  match c with
  | (tr, inl e) => (tr, inl e)
  | (tr, inr x) => let '(tr', r) := k x in (tr ++ tr', r)
  end.

Definition emit (ev : event) : M unit := ([ev], inr tt).

(** A pure Python operation that may raise. *)
Definition lift {A} (r : Py.exn + A) : M A := ([], r).

(** [for x in l: body(x)]. *)
Fixpoint for_each {A} (l : list A) (body : A -> M unit) : M unit :=
  match l with
  | [] => ret tt
  | x :: l' => bind (body x) (fun _ => for_each l' body)
  end.
End Monad.
End Trace.

Declare Scope trace_scope.
Delimit Scope trace_scope with trace.
Notation "x <- c ;; k" := (Trace.bind c (fun x => k))
(at level 100, c at next level, right associativity) : trace_scope.
Notation "c ;;; k" := (Trace.bind c (fun _ => k))
(at level 100, right associativity) : trace_scope.

(** ** interpolate_video.py *)

Module InterpolateVideo.
Section Upconverter.

(** A decoded raster frame, and a parameter tensor of the network. *)
Variable frame : Type.
Variable tensor : Type.

(** torch's size check when a tensor is copied into a parameter. *)
Variable compatible : tensor -> tensor -> bool.

(** The parameters of a freshly built [IFRNet()]. *)
Variable IFRNet_init : gmap string tensor.

(** [model.inference] with the tensor conversions around it: the
    external pairwise interpolation, a pure function of the model state,
    two frames and a time position. *)
Variable inference : gmap string tensor -> frame -> frame -> Py.float -> frame.

(** What [torch.load] returns: a dictionary whose values are tensors or,
    one level down, dictionaries of tensors. *)
Inductive entry : Type :=
| Param (v : tensor)
| Nested (m : gmap string tensor).

Inductive event : Type :=
| OpenWriter (path : string) (rate : Py.float) (w h : Z)
| Write (f : frame)
| Interpolate (f0 f1 : frame) (t : Py.float)
| Release.

Record video : Type := Video {
  fps : Py.float;
  width : Z;
  height : Z;
  frames : list frame
}.

Record args : Type := Args {
  input : string;
  target_fps : Py.float;
  model_path : string;
  output : string
}.

(** The files the run can read: checkpoints by path, videos by path. *)
Record env : Type := Env {
  checkpoints : gmap string (gmap string entry);
  videos : gmap string video
}.

Local Open Scope trace_scope.
Abbreviation M := (@Trace.M event).

(** *** load_model *)

(** torch's [Module.load_state_dict], one parameter name at a time: [old]
    is the model's value, [new] the checkpoint's.  A name the model has
    takes the checkpoint's tensor when it fits; a missing or an unexpected
    name is an error under [strict] only. *)
Definition load_one (strict : bool) (old : option tensor) (new : option entry)
  : option (Py.exn + tensor) :=
  match old, new with
  | Some v, Some (Param w) =>
      Some (if compatible v w then inr w else inl Py.RuntimeError)
  | Some _, Some (Nested _) => Some (inl Py.RuntimeError)
  | Some v, None => Some (if strict then inl Py.RuntimeError else inr v)
  | None, Some _ => if strict then Some (inl Py.RuntimeError) else None
  | None, None => None
  end.

Definition loaded (r : Py.exn + tensor) : option tensor :=
  match r with inr v => Some v | inl _ => None end.

Definition load_state_dict (model : gmap string tensor)
    (state_dict : gmap string entry) (strict : bool)
  : Py.exn + gmap string tensor :=
  let merged := merge (load_one strict) model state_dict in
  if bool_decide (map_Forall (fun _ r => is_Some (loaded r)) merged)
  then inr (omap loaded merged)
  else inl Py.RuntimeError.

(** Lines 25-35.  A checkpoint that has the key "state_dict" is taken for
    the wrapped form; [load_state_dict] refuses what is no mapping. *)
Definition load_model (E : env) (path : string) : Py.exn + gmap string tensor :=
  let model := IFRNet_init in
  match checkpoints E !! path with
  | None => inl Py.FileNotFoundError
  | Some checkpoint =>
      match checkpoint !! "state_dict"%string with
      | Some (Nested sd) => load_state_dict model (Param <$> sd) false
      | Some (Param _) => inl Py.TypeError
      | None => load_state_dict model checkpoint false
      end
  end.

(** *** interpolate_frame *)

Definition interpolate_frame (model : gmap string tensor) (img0 img1 : frame)
    (t : Py.float) : M frame :=
  Trace.emit (Interpolate img0 img1 t) ;;;
  Trace.ret (inference model img0 img1 t).

(** *** main *)

(** Lines 68-71: the ratio, replaced by the int 1 when it is at most 1. *)
Definition factor (target source : Py.float) : Py.exn + Py.number :=
  match Py.float_truediv target source with
  | inl e => inl e
  | inr q => inr (if Py.float_le_int q 1 then Py.Int 1 else Py.Float q)
  end.

(** Line 88. *)
Definition interp_count (fac : Py.number) : Py.exn + Z :=
  match Py.round fac with
  | inl e => inl e
  | inr r => inr (r - 1)
  end.

(** Lines 93-96. *)
Definition write_between (out_model : gmap string tensor) (count : Z)
    (f0 f1 : frame) : M unit :=
  Trace.for_each (Py.range 1 (count + 1)) (fun k =>
    t <- Trace.lift (Py.int_truediv k (count + 1)) ;;
    mid <- interpolate_frame out_model f0 f1 t ;;
    Trace.emit (Write mid)).

(** Lines 90-96. *)
Definition write_pairs (out_model : gmap string tensor) (count : Z)
    (fs : list frame) : M unit :=
  Trace.for_each (Py.range 0 (Z.of_nat (length fs) - 1)) (fun i =>
    f0 <- Trace.lift (Py.getitem fs i) ;;
    f1 <- Trace.lift (Py.getitem fs (i + 1)) ;;
    Trace.emit (Write f0) ;;;
    write_between out_model count f0 f1).

(** Lines 48-100; the [print] calls and the [tqdm] display are left out. *)
Definition main (a : args) (E : env) : M unit :=
  model <- Trace.lift (load_model E (model_path a)) ;;
  cap <- match videos E !! input a with
         | Some v => Trace.ret v
         | None => Trace.raise Py.RuntimeError
         end ;;
  fac <- Trace.lift (factor (target_fps a) (fps cap)) ;;
  let fs := frames cap in
  Trace.emit (OpenWriter (output a) (target_fps a) (width cap) (height cap)) ;;;
  count <- Trace.lift (interp_count fac) ;;
  write_pairs model count fs ;;;
  last <- Trace.lift (Py.getitem fs (-1)) ;;
  Trace.emit (Write last) ;;;
  Trace.emit Release.

(** The frames handed to [out.write], in order. *)
Definition written (tr : list event) : list frame :=
  omap (fun ev => match ev with Write f => Some f | _ => None end) tr.

(** The calls of the interpolation capability, in order. *)
Definition interpolations (tr : list event) : list (frame * frame * Py.float) :=
  omap (fun ev => match ev with
                  | Interpolate f0 f1 t => Some (f0, f1, t)
                  | _ => None
                  end) tr.

(** *** The schedule, as the specification words it

    Between two consecutive frames come [count] synthetic frames at the
    time positions [k / (count + 1)], [k = 1 .. count]; the last frame
    closes the sequence. *)

Definition time_position (count k : Z) : Py.float := Py.quotient k (count + 1).

Definition synthetic (model : gmap string tensor) (count : Z) (f0 f1 : frame)
  : list frame :=
  map (fun k => inference model f0 f1 (time_position count k))
      (Py.range 1 (count + 1)).

Fixpoint schedule (model : gmap string tensor) (count : Z) (fs : list frame)
  : list frame :=
  match fs with
  | [] => []
  | f0 :: tl =>
      f0 :: match tl with
            | [] => []
            | f1 :: _ => synthetic model count f0 f1 ++ schedule model count tl
            end
  end.

(** The events of one pair, and of all the pairs of a sequence. *)
Definition between_trace (model : gmap string tensor) (count : Z) (f0 f1 : frame)
  : list event :=
  flat_map (fun k =>
              let t := time_position count k in
              [Interpolate f0 f1 t; Write (inference model f0 f1 t)])
           (Py.range 1 (count + 1)).

Fixpoint pairs_trace (model : gmap string tensor) (count : Z) (fs : list frame)
  : list event :=
  match fs with
  | f0 :: ((f1 :: _) as tl) =>
      Write f0 :: between_trace model count f0 f1 ++ pairs_trace model count tl
  | _ => []
  end.

(** What one run writes, calls and ends with. *)
Definition output_frames (a : args) (E : env) : list frame :=
  written (fst (main a E)).

Definition calls (a : args) (E : env) : list (frame * frame * Py.float) :=
  interpolations (fst (main a E)).

Definition outcome (a : args) (E : env) : Py.exn + unit := snd (main a E).

(** The calls of the interpolation capability made for one pair. *)
Definition pair_calls (count : Z) (p : frame * frame)
  : list (frame * frame * Py.float) :=
  map (fun k => (p.1, p.2, time_position count k)) (Py.range 1 (count + 1)).

(** In a trace, every call of the interpolation is followed at once by the
    write of the frame it returned. *)
Definition written_at_once (model : gmap string tensor) (tr : list event) : Prop :=
  forall i f0 f1 t,
    nth_error tr i = Some (Interpolate f0 f1 t) ->
    nth_error tr (S i) = Some (Write (inference model f0 f1 t)).

(** The events of the writer itself. *)
Definition writer_event (ev : event) : bool :=
  match ev with
  | OpenWriter _ _ _ _ | Release => true
  | _ => false
  end.

(** How often a trace opens the writer. *)
Definition openings (tr : list event) : nat :=
  length (List.filter (fun ev => match ev with
                                 | OpenWriter _ _ _ _ => true
                                 | _ => false
                                 end) tr).

End Upconverter.

Arguments Param {tensor}.
Arguments Nested {tensor}.
Arguments OpenWriter {frame}.
Arguments Write {frame}.
Arguments Interpolate {frame}.
Arguments Release {frame}.
Arguments Video {frame}.
Arguments fps {frame}.
Arguments width {frame}.
Arguments height {frame}.
Arguments frames {frame}.
Arguments Env {frame tensor}.
Arguments checkpoints {frame tensor}.
Arguments videos {frame tensor}.
Arguments written {frame}.
Arguments interpolations {frame}.
Arguments load_one {tensor}.
Arguments loaded {tensor}.
Arguments load_state_dict {tensor}.
Arguments load_model {frame tensor}.
Arguments interpolate_frame {frame tensor}.
Arguments write_between {frame tensor}.
Arguments write_pairs {frame tensor}.
Arguments main {frame tensor}.
Arguments synthetic {frame tensor}.
Arguments schedule {frame tensor}.
Arguments between_trace {frame tensor}.
Arguments pairs_trace {frame tensor}.
Arguments pair_calls {frame}.
Arguments output_frames {frame tensor}.
Arguments calls {frame tensor}.
Arguments outcome {frame tensor}.
Arguments written_at_once {frame tensor}.
Arguments writer_event {frame}.
Arguments openings {frame}.

End InterpolateVideo.


(** ** A state-and-exception monad *)

Module State.
Section Monad.
Context {world : Type}.

Definition M (A : Type) : Type := world -> world * (Py.exn + A).

Definition ret {A} (x : A) : M A := fun w => (w, inr x).

Definition raise {A} (e : Py.exn) : M A := fun w => (w, inl e).

Definition bind {A B} (c : M A) (k : A -> M B) : M B :=
  fun w => match c w with
           | (w', inl e) => (w', inl e)
           | (w', inr x) => k x w'
           end.

Definition get : M world := fun w => (w, inr w).

Definition modify (f : world -> world) : M unit := fun w => (f w, inr tt).

(** A pure operation that may raise. *)
Definition lift {A} (r : Py.exn + A) : M A := fun w => (w, r).

(** [try: c  except: handler]. *)
Definition try_except {A} (c : M A) (handler : Py.exn -> M A) : M A :=
  fun w => match c w with
           | (w', inl e) => handler e w'
           | (w', inr x) => (w', inr x)
           end.

Fixpoint for_each {A} (l : list A) (body : A -> M unit) : M unit :=
  match l with
  | [] => ret tt
  | x :: l' => bind (body x) (fun _ => for_each l' body)
  end.
(** A computation keeps a property of the world, however it ends. *)
Definition preserves {A} (P : world -> Prop) (c : M A) : Prop :=
  forall w, P w -> P (fst (c w)).
End Monad.
End State.

Declare Scope state_scope.
Delimit Scope state_scope with state.
Notation "x <- c ;; k" := (State.bind c (fun x => k))
  (at level 100, c at next level, right associativity) : state_scope.
Notation "c ;;; k" := (State.bind c (fun _ => k))
  (at level 100, right associativity) : state_scope.

(** ** download_checkpoints.py *)

Module DownloadCheckpoints.

(** A [Path], as its components below the root of the file system. *)
Definition parent (p : list string) : list string := removelast p.
Definition name (p : list string) : string := List.last p ""%string.

(** Regular files with their content, and directories; the root is a
    directory. *)
Record filesystem : Type := FS {
  files : gmap (list string) (list Byte.byte);
  dirs : gset (list string)
}.

Definition is_file (p : list string) (d : filesystem) : bool :=
  bool_decide (is_Some (files d !! p)).

Definition is_dir (p : list string) (d : filesystem) : bool :=
  bool_decide (p = [] \/ p ∈ dirs d).

(** [Path.exists]. *)
Definition path_exists (p : list string) (d : filesystem) : bool :=
  is_file p d || is_dir p d.

(** [os.mkdir]. *)
Definition os_mkdir (p : list string) (d : filesystem) : Py.exn + filesystem :=
  if path_exists p d then inl Py.FileExistsError
  else if is_dir (parent p) d then inr (FS (files d) ({[ p ]} ∪ dirs d))
  else if is_file (parent p) d then inl Py.NotADirectoryError
  else inl Py.FileNotFoundError.

(** [Path.mkdir] without [parents]: an existing directory is accepted under
    [exist_ok]. *)
Definition mkdir_one (p : list string) (exist_ok : bool) (d : filesystem)
  : Py.exn + filesystem :=
  match os_mkdir p d with
  | inr d' => inr d'
  | inl Py.FileNotFoundError => inl Py.FileNotFoundError
  | inl e => if exist_ok && is_dir p d then inr d else inl e
  end.

(** [Path.mkdir(parents=True, exist_ok=...)], on the reversed path: the
    missing ancestors are made first. *)
Fixpoint mkdir_parents (rp : list string) (exist_ok : bool) (d : filesystem)
  : Py.exn + filesystem :=
  match os_mkdir (rev rp) d with
  | inr d' => inr d'
  | inl Py.FileNotFoundError =>
      match rp with
      | [] => inl Py.FileNotFoundError
      | _ :: up =>
          match mkdir_parents up true d with
          | inl e => inl e
          | inr d1 => mkdir_one (rev rp) exist_ok d1
          end
      end
  | inl e => if exist_ok && is_dir (rev rp) d then inr d else inl e
  end.

Definition mkdir (p : list string) (parents exist_ok : bool) (d : filesystem)
  : Py.exn + filesystem :=
  if parents then mkdir_parents (rev p) exist_ok d else mkdir_one p exist_ok d.

(** [open(p, 'wb')]: the file is created or emptied. *)
Definition open_wb (p : list string) (d : filesystem) : Py.exn + filesystem :=
  if is_dir p d then inl Py.IsADirectoryError
  else if is_dir (parent p) d then inr (FS (<[ p := [] ]> (files d)) (dirs d))
  else if is_file (parent p) d then inl Py.NotADirectoryError
  else inl Py.FileNotFoundError.

(** [f.write(chunk)] on the file opened at [p]. *)
Definition append (p : list string) (chunk : list Byte.byte) (d : filesystem)
  : filesystem :=
  FS (<[ p := default [] (files d !! p) ++ chunk ]> (files d)) (dirs d).

(** [Path.unlink]. *)
Definition unlink (p : list string) (d : filesystem) : Py.exn + filesystem :=
  if is_file p d then inr (FS (delete p (files d)) (dirs d))
  else if is_dir p d then inl Py.IsADirectoryError
  else inl Py.FileNotFoundError.

(** What the server answers to one GET: nothing (a transport failure), or a
    status, an optional content-length header, and the body as the chunks
    that [iter_content] yields; [broken] says that the stream fails after
    them, for whatever reason the transport has (a connection that drops,
    or an end before the declared length where the transport enforces
    it). *)
Record response : Type := Response {
  status : Z;
  content_length : option string;
  body : list (list Byte.byte);
  broken : bool
}.

Inductive reply : Type :=
| Unreachable
| Reply (r : response).

(** A [tqdm] progress bar. *)
Record bar : Type := Bar {
  desc : string;
  total : Z;
  count : Z
}.

(** One member of an archive.  A file member has the place it goes to, the
    bytes its extraction writes, and the exception that ends its
    extraction, if any ([BadZipFile] for a bad header or checksum,
    [zlib.error] for a damaged compressed stream); a directory entry (a
    name that ends in a slash) has its place only. *)
Inductive member : Type :=
| Member (target : list string) (data : list Byte.byte) (fault : option Py.exn)
| Folder (target : list string).

Definition target (m : member) : list string :=
  match m with
  | Member t _ _ => t
  | Folder t => t
  end.

Definition data (m : member) : list Byte.byte :=
  match m with
  | Member _ c _ => c
  | Folder _ => []
  end.

Definition fault (m : member) : option Py.exn :=
  match m with
  | Member _ _ e => e
  | Folder _ => None
  end.

(** The file system, the answers of the server to the requests still to
    come, the requests sent so far, and the progress bars made so far (the
    last one is the open one). *)
Record world : Type := World {
  disk : filesystem;
  network : list reply;
  sent : list string;
  progress : list bar
}.

Definition on_disk (f : filesystem -> filesystem) (w : world) : world :=
  World (f (disk w)) (network w) (sent w) (progress w).

Definition new_bar (b : bar) (w : world) : world :=
  World (disk w) (network w) (sent w) (progress w ++ [b]).

(** [pbar.update(n)] on the open bar. *)
Definition update_bar (n : Z) (w : world) : world :=
  World (disk w) (network w) (sent w)
        (match List.rev (progress w) with
         | [] => []
         | b :: older => List.rev older ++ [Bar (desc b) (total b) (count b + n)]
         end).

(** [p] is a regular file, and no directory. *)
Definition regular (p : list string) (w : world) : Prop :=
  is_file p (disk w) = true /\ is_dir p (disk w) = false.

(** A file system operation leaves a regular file regular. *)
Definition keeps (p : list string) (f : filesystem -> Py.exn + filesystem) : Prop :=
  forall d d', f d = inr d' ->
    is_file p d = true -> is_dir p d = false ->
    is_file p d' = true /\ is_dir p d' = false.

(** Nothing was asked of the server: the requests sent and the answers to
    come are [s] and [n]. *)
Definition quiet (s : list string) (n : list reply) (w : world) : Prop :=
  sent w = s /\ network w = n.

(** The exceptions of the file system operations. *)
Definition fs_error (e : Py.exn) : bool :=
  match e with
  | Py.FileNotFoundError | Py.FileExistsError
  | Py.NotADirectoryError | Py.IsADirectoryError => true
  | _ => false
  end.

(** A file system operation raises file system exceptions only. *)
Definition raises_fs_errors (f : filesystem -> Py.exn + filesystem) : Prop :=
  forall d e, f d = inl e -> fs_error e = true.

(** A file system operation leaves the regular files as they are. *)
Definition keeps_files (f : filesystem -> Py.exn + filesystem) : Prop :=
  forall d d', f d = inr d' -> files d' = files d.

(** A file system operation removes no directory. *)
Definition keeps_dirs (f : filesystem -> Py.exn + filesystem) : Prop :=
  forall d d' p, f d = inr d' -> is_dir p d = true -> is_dir p d' = true.

(** [p] is a directory. *)
Definition made (p : list string) (w : world) : Prop := is_dir p (disk w) = true.

(** The file at [q] holds [c] (or is absent, for [None]). *)
Definition holds (q : list string) (c : option (list Byte.byte)) (w : world) : Prop :=
  files (disk w) !! q = c.

Section Fetcher.

(** [int(s)] on a header value. *)
Variable int_of_string : string -> option Z.

(** [zipfile.ZipFile(...)] on the bytes of a file: [BadZipFile] or another
    exception, or, for each name of [namelist()] in order, the member that
    [extract] resolves the name to. *)
Variable unzip : list Byte.byte -> Py.exn + list member.

(** The directory of the script. *)
Variable repo_root : list string.

Local Open Scope state_scope.
Abbreviation M := (@State.M world).

(** A file system operation that may raise. *)
Definition fs_op (f : filesystem -> Py.exn + filesystem) : M unit :=
  fun w => match f (disk w) with
           | inl e => (w, inl e)
           | inr d => (on_disk (fun _ => d) w, inr tt)
           end.

(** [requests.get(url, stream=True)]: one request leaves, the next answer
    of the server comes back. *)
Definition requests_get (url : string) : M response :=
  fun w =>
    let w' := World (disk w) (tl (network w)) (sent w ++ [url]) (progress w) in
    match network w with
    | Reply r :: _ => (w', inr r)
    | _ => (w', inl Py.RequestException)
    end.

Definition raise_for_status (r : response) : M unit :=
  if (400 <=? status r) && (status r <? 600)
  then State.raise Py.RequestException
  else State.ret tt.

(** [int(response.headers.get('content-length', 0))]. *)
Definition total_size (r : response) : Py.exn + Z :=
  match content_length r with
  | None => inr 0
  | Some s => match int_of_string s with
              | Some n => inr n
              | None => inl Py.ValueError
              end
  end.

(** [response.iter_content]: the chunks, then the failure of a broken
    stream. *)
Definition iter_content (r : response) (body_of : list Byte.byte -> M unit) : M unit :=
  State.for_each (body r) body_of ;;;
  if broken r then State.raise Py.RequestException else State.ret tt.

(** Lines 42-44, the body of the loop over the chunks. *)
Definition store_chunk (filepath : list string) (chunk : list Byte.byte) : M unit :=
  match chunk with
  | [] => State.ret tt
  | _ :: _ =>
      State.modify (on_disk (append filepath chunk)) ;;;
      State.modify (update_bar (Z.of_nat (length chunk)))
  end.

Definition download_file (url : string) (filepath : list string) : M unit :=
  response <- requests_get url ;;
  raise_for_status response ;;;
  total_size <- State.lift (total_size response) ;;
  fs_op (mkdir (parent filepath) true true) ;;;
  fs_op (open_wb filepath) ;;;
  State.modify (new_bar (Bar (name filepath) total_size 0)) ;;;
  iter_content response (store_chunk filepath).

(** [os.makedirs(upperdirs)] unless it exists. *)
Definition makedirs_missing (upperdirs : list string) (d : filesystem)
  : Py.exn + filesystem :=
  if path_exists upperdirs d then inr d else mkdir upperdirs true false d.

(** [os.mkdir(targetpath)] unless it is a directory. *)
Definition mkdir_missing (targetpath : list string) (d : filesystem)
  : Py.exn + filesystem :=
  if is_dir targetpath d then inr d else os_mkdir targetpath d.

(** [zip_ref.extract(file, extract_to)]: the directories above the target
    are made; a directory entry becomes a directory, a file member is
    written. *)
Definition extract (m : member) (extract_to : list string) : M unit :=
  let targetpath := extract_to ++ target m in
  fs_op (makedirs_missing (parent targetpath)) ;;;
  match m with
  | Folder _ => fs_op (mkdir_missing targetpath)
  | Member _ content failure =>
      fs_op (open_wb targetpath) ;;;
      State.modify (on_disk (append targetpath content)) ;;;
      match failure with
      | Some e => State.raise e
      | None => State.ret tt
      end
  end.

Definition extract_zip (zip_path extract_to : list string) : M unit :=
  w <- State.get ;;
  content <- State.lift (match files (disk w) !! zip_path with
                         | Some c => inr c
                         | None => inl Py.FileNotFoundError
                         end) ;;
  file_list <- State.lift (unzip content) ;;
  State.modify (new_bar (Bar "Extracting" (Z.of_nat (length file_list)) 0)) ;;;
  State.for_each file_list (fun file =>
    extract file extract_to ;;;
    State.modify (update_bar 1)).

Definition checkpoints_dir : list string := repo_root ++ ["checkpoints"%string].
Definition zip_path : list string := checkpoints_dir ++ ["ifrnet_checkpoints.zip"%string].
Definition dropbox_url : string :=
  "https://www.dropbox.com/scl/fo/gvfjc8bq259l4cre2ai0k/AIxkWTcEOcvIIYe7RDlZpag?rlkey=x4lxph520gbt0tjy839gmwoc0&e=1&dl=1".

(** Steps 1 to 4 of [main]; step 5 only reads and prints. *)
Definition steps : M Z :=
  fs_op (mkdir checkpoints_dir false true) ;;;
  download_file dropbox_url zip_path ;;;
  extract_zip zip_path checkpoints_dir ;;;
  fs_op (unlink zip_path) ;;;
  State.ret 0.

(** The three [except] clauses; the value is the exit status. *)
Definition handler (e : Py.exn) : M Z :=
  match e with
  | Py.RequestException => State.ret 1
  | Py.BadZipFile =>
      w <- State.get ;;
      (if path_exists zip_path (disk w) then fs_op (unlink zip_path)
       else State.ret tt) ;;;
      State.ret 1
  | _ => State.ret 1
  end.

(** [main]: the exit status, or the exception that escapes.  The [print]
    calls are left out. *)
Definition main : M Z := State.try_except steps handler.

End Fetcher.
End DownloadCheckpoints.

(** ** Sample data: a symbolic interpolation and small videos *)

Module Sample.
Import InterpolateVideo.

(** Frames that remember how they were made. *)
Inductive picture : Type :=
| Shot (n : Z)
| Blend (a b : picture) (t : Py.float).

Definition blend (model : gmap string Z) (a b : picture) (t : Py.float) : picture :=
  Blend a b t.

Definition fresh : gmap string Z :=
  {[ "conv.weight"%string := 0; "conv.bias"%string := 0 ]}.

Definition same_size (v w : Z) : bool := true.

Definition weights : gmap string Z :=
  {[ "conv.weight"%string := 7; "conv.bias"%string := 9 ]}.

Definition clip (rate : Z) (shots : list Z) : video picture :=
  Video (Py.float_of_int rate) 4 4 (map Shot shots).

Definition disk : env picture Z :=
  Env {[ "flat.pth"%string := Param <$> weights;
         "wrapped.pth"%string := {[ "state_dict"%string := Nested weights ]} ]}
      {[ "three.mp4"%string := clip 30 [1; 2; 3];
         "two.mp4"%string := clip 30 [1; 2];
         "one.mp4"%string := clip 30 [1];
         "none.mp4"%string := clip 30 [];
         "still.mp4"%string := clip 0 [1; 2] ]}.

(** A flat mapping one of whose names is "state_dict", and the same
    mapping wrapped. *)
Definition odd : gmap string Z :=
  {[ "state_dict"%string := 1; "conv.weight"%string := 7 ]}.

Definition shelf : env picture Z :=
  Env {[ "flat.pth"%string := Param <$> odd;
         "wrapped.pth"%string := {[ "state_dict"%string := Nested odd ]} ]}
      ∅.

Definition job (file : string) (rate : Z) : args :=
  Args file (Py.float_of_int rate) "flat.pth" "out_interpolated.mp4".

Definition run (file : string) (rate : Z) : Trace.M unit :=
  main same_size fresh blend (job file rate) disk.

(** A job whose target rate is not a number, and one whose checkpoint is
    not there. *)
Definition nan_job : args :=
  Args "three.mp4" S754_nan "flat.pth" "out_interpolated.mp4".

Definition lost_job : args :=
  Args "three.mp4" (Py.float_of_int 60) "lost.pth" "out_interpolated.mp4".

End Sample.

(** ** Sample data: a small site and its answers *)

Module Mirror.
Import DownloadCheckpoints.

Definition root : list string := ["repo"%string].

(** A header parser that knows one value. *)
Definition read_int (s : string) : option Z :=
  if String.eqb s "3" then Some 3 else None.

(** The members of the one archive the sample reader knows: the root
    entry, a directory and a file in it. *)
Definition shipped : list member :=
  [Folder [];
   Folder ["IFRNet"%string];
   Member ["IFRNet"%string; "IFRNet_Vimeo90K.pth"%string] [Byte.x01] None].

(** An archive reader that knows one archive. *)
Definition read_zip (content : list Byte.byte) : Py.exn + list member :=
  match content with
  | [Byte.x50; Byte.x4b; Byte.x03] => inr shipped
  | _ => inl Py.BadZipFile
  end.


(** An archive reader that finds three members, the second one damaged. *)
Definition read_damaged (content : list Byte.byte) : Py.exn + list member :=
  inr [Member ["a.pth"%string] [Byte.x01] None;
       Member ["b.pth"%string] [Byte.x02] (Some Py.BadZipFile);
       Member ["c.pth"%string] [Byte.x03] None].

Definition site (answers : list reply) : world :=
  World (FS ∅ {[ root ]}) answers [] [].

(** A good archive, sent in three chunks and without a content-length. *)
Definition good : reply :=
  Reply (Response 200 None [[Byte.x50]; []; [Byte.x4b; Byte.x03]] false).


Definition fetch (answers : list reply) : world * (Py.exn + Z) :=
  main read_int read_zip root (site answers).

(** An answer whose declared length is no number, one whose stream breaks
    after two chunks, and one with an error status. *)
Definition unreadable : reply :=
  Reply (Response 200 (Some "many"%string) [[Byte.x50]] false).

Definition cut : reply :=
  Reply (Response 200 None [[Byte.x50]; [Byte.x4b]] true).

Definition refused : reply :=
  Reply (Response 404 None [] false).

(** A site where the checkpoints directory exists, one where the archive is
    already there, and one where a regular file is in the way. *)
Definition ready (answers : list reply) : world :=
  World (FS ∅ ({[ checkpoints_dir root ]} ∪ {[ root ]})) answers [] [].

Definition stocked : world :=
  World (FS {[ zip_path root := [Byte.x50; Byte.x4b; Byte.x03];
               root ++ ["notes.txt"%string] := [Byte.x01] ]}
            ({[ checkpoints_dir root ]} ∪ {[ root ]}))
        [] [] [].

Definition blocked : world :=
  World (FS {[ checkpoints_dir root := [Byte.x00] ]} {[ root ]}) [good] [] [].

End Mirror.

(** ** Facts about the Python operations *)

Module PyFacts.
Import Py.

Lemma range_nil lo hi : hi <= lo -> range lo hi = [].
Proof.
  intros H. unfold range.
  replace (Z.to_nat (hi - lo)) with 0%nat by lia. reflexivity.
Qed.

Lemma range_cons lo hi : lo < hi -> range lo hi = lo :: range (lo + 1) hi.
Proof.
  intros H. unfold range.
  replace (Z.to_nat (hi - lo)) with (S (Z.to_nat (hi - (lo + 1)))) by lia.
  cbn [seq map]. f_equal; [lia|].
  rewrite <- seq_shift, map_map.
  apply map_ext. intros i. lia.
Qed.

Lemma range_length lo hi : Z.of_nat (length (range lo hi)) = Z.max 0 (hi - lo).
Proof. unfold range. rewrite length_map, length_seq. lia. Qed.

Lemma range_elem lo hi k : In k (range lo hi) <-> lo <= k < hi.
Proof.
  unfold range. rewrite in_map_iff. split.
  - intros (i & <- & Hi). apply in_seq in Hi. lia.
  - intros Hk. exists (Z.to_nat (k - lo)). split; [lia|].
    apply in_seq. lia.
Qed.

Lemma range_lookup lo hi (i : nat) :
  Z.of_nat i < hi - lo -> nth_error (range lo hi) i = Some (lo + Z.of_nat i).
Proof.
  intros H. unfold range.
  rewrite nth_error_map, nth_error_seq.
  destruct (Nat.ltb_spec i (Z.to_nat (hi - lo))); [reflexivity | lia].
Qed.

Lemma getitem_middle {A} (pre post : list A) (x : A) :
  getitem (pre ++ x :: post) (Z.of_nat (length pre)) = inr x.
Proof.
  unfold getitem. rewrite length_app. cbn [length].
  destruct (Z.ltb_spec (Z.of_nat (length pre)) 0); [lia|].
  destruct (Z.ltb_spec (Z.of_nat (length pre)) 0); [lia|].
  destruct (Z.leb_spec (Z.of_nat (length pre + S (length post))) (Z.of_nat (length pre))); [lia|].
  cbn [orb]. rewrite Nat2Z.id.
  rewrite nth_error_app2 by lia. rewrite Nat.sub_diag. reflexivity.
Qed.

Lemma getitem_last {A} (pre : list A) (x : A) :
  getitem (pre ++ [x]) (-1) = inr x.
Proof.
  unfold getitem. rewrite length_app. cbn [length].
  change (-1 <? 0) with true. cbn iota.
  destruct (Z.ltb_spec (-1 + Z.of_nat (length pre + 1)) 0); [lia|].
  destruct (Z.leb_spec (Z.of_nat (length pre + 1)) (-1 + Z.of_nat (length pre + 1))); [lia|].
  cbn [orb].
  replace (Z.to_nat (-1 + Z.of_nat (length pre + 1))) with (length pre) by lia.
  rewrite nth_error_app2 by lia. rewrite Nat.sub_diag. reflexivity.
Qed.

Lemma getitem_nil {A} (i : Z) : getitem (@nil A) i = inl IndexError.
Proof.
  unfold getitem. cbn [length]. change (Z.of_nat 0) with 0.
  destruct (i <? 0) eqn:Hi.
  - rewrite Z.add_0_r, Hi. reflexivity.
  - rewrite Hi. apply Z.ltb_ge in Hi.
    destruct (Z.leb_spec 0 i); [reflexivity | lia].
Qed.

(** *** Binary digits and the rounding shift *)

Lemma digits2_size p : digits2_pos p = Pos.size p.
Proof. induction p; cbn; congruence. Qed.

Lemma Zdigits2_nonneg m : 0 <= Zdigits2 m.
Proof. destruct m; cbn; lia. Qed.

Lemma Zdigits2_gt m : 0 <= m -> m < 2 ^ Zdigits2 m.
Proof.
  destruct m as [|p|p]; cbn [Zdigits2]; [lia | | lia].
  intros _. rewrite digits2_size.
  pose proof (Pos.size_gt p) as H.
  apply Pos2Z.pos_lt_pos in H. rewrite Pos2Z.inj_pow in H. exact H.
Qed.

Lemma Zdigits2_le m s : 0 <= s -> 0 <= m < 2 ^ s -> Zdigits2 m <= s.
Proof.
  intros Hs [Hm Hlt].
  destruct m as [|p|p]; cbn [Zdigits2]; [lia | | lia].
  rewrite digits2_size.
  destruct (Z.le_gt_cases (Z.pos (Pos.size p)) s) as [|Hgt]; [assumption|].
  exfalso.
  pose proof (Pos.size_le p) as H.
  apply Pos2Z.pos_le_pos in H. rewrite Pos2Z.inj_pow in H.
  assert (2 ^ (s + 1) <= 2 ^ Z.pos (Pos.size p)) by (apply Z.pow_le_mono_r; lia).
  rewrite Z.pow_add_r in * by lia. lia.
Qed.

Lemma shr_1_digits mrs :
  0 <= shr_m mrs ->
  0 <= shr_m (shr_1 mrs) /\
  Zdigits2 (shr_m (shr_1 mrs)) = Z.max 0 (Zdigits2 (shr_m mrs) - 1).
Proof.
  destruct mrs as [m r s]. cbn [shr_m]. intros Hm.
  destruct m as [|[p|p|]|p]; cbn; try lia.
  all: split; [lia|]; destruct p; cbn; lia.
Qed.

Lemma iter_shr_digits p : forall mrs,
  0 <= shr_m mrs ->
  0 <= shr_m (SpecFloat.iter_pos shr_1 p mrs) /\
  Zdigits2 (shr_m (SpecFloat.iter_pos shr_1 p mrs)) = Z.max 0 (Zdigits2 (shr_m mrs) - Z.pos p).
Proof.
  induction p as [p IH|p IH|]; intros mrs Hm; cbn [SpecFloat.iter_pos].
  - destruct (shr_1_digits mrs Hm) as [H1 E1].
    destruct (IH _ H1) as [H2 E2].
    destruct (IH _ H2) as [H3 E3].
    split; [assumption|]. rewrite E3, E2, E1. lia.
  - destruct (IH mrs Hm) as [H1 E1].
    destruct (IH _ H1) as [H2 E2].
    split; [assumption|]. rewrite E2, E1. lia.
  - destruct (shr_1_digits _ Hm) as [H1 E1]. split; [assumption|].
    rewrite E1. lia.
Qed.

Lemma shr_record_of_loc_m m l : shr_m (shr_record_of_loc m l) = m.
Proof. destruct l as [|[]]; reflexivity. Qed.

Lemma shr_fexp_bound m e l :
  0 <= m ->
  0 <= shr_m (fst (shr_fexp prec emax m e l)) /\
  snd (shr_fexp prec emax m e l) = Z.max e (fexp prec emax (Zdigits2 m + e)) /\
  Zdigits2 (shr_m (fst (shr_fexp prec emax m e l))) + snd (shr_fexp prec emax m e l)
    <= Z.max (Zdigits2 m + e) (fexp prec emax (Zdigits2 m + e)).
Proof.
  intros Hm. unfold shr_fexp, shr.
  pose proof (Zdigits2_nonneg m) as Hd.
  set (x := fexp prec emax (Zdigits2 m + e)).
  destruct (x - e) as [|n|n] eqn:En; cbn [fst snd];
    rewrite ?shr_record_of_loc_m.
  - repeat split; lia.
  - destruct (iter_shr_digits n (shr_record_of_loc m l)) as [H1 E1];
      [rewrite shr_record_of_loc_m; assumption|].
    rewrite shr_record_of_loc_m in E1.
    split; [assumption|]. rewrite E1. split; lia.
  - repeat split; lia.
Qed.

Lemma round_nearest_even_bound m l :
  0 <= m -> m <= round_nearest_even m l <= m + 1.
Proof.
  intros Hm. destruct l as [|[]]; cbn; try lia.
  destruct (Z.even m); lia.
Qed.

(** Rounding a small magnitude never reaches the infinities. *)
Lemma binary_round_aux_finite sx mx ex lx :
  0 <= mx -> Zdigits2 mx + ex <= 1000 -> ex <= 900 ->
  forall s, binary_round_aux prec emax sx mx ex lx <> S754_infinity s.
Proof.
  intros Hm Hd He s. unfold binary_round_aux.
  destruct (shr_fexp_bound mx ex lx Hm) as (H1 & E1 & B1).
  destruct (shr_fexp prec emax mx ex lx) as [mrs' e'] eqn:S1.
  cbn [fst snd] in H1, E1, B1.
  set (mr := round_nearest_even (shr_m mrs') (loc_of_shr_record mrs')).
  pose proof (round_nearest_even_bound (shr_m mrs') (loc_of_shr_record mrs') H1) as Hr.
  fold mr in Hr.
  assert (Hmr : 0 <= mr) by lia.
  destruct (shr_fexp_bound mr e' loc_Exact Hmr) as (H2 & E2 & B2).
  destruct (shr_fexp prec emax mr e' loc_Exact) as [mrs'' e''] eqn:S2.
  cbn [fst snd] in H2, E2, B2.
  assert (Hdr : Zdigits2 mr <= Zdigits2 (shr_m mrs') + 1).
  { apply Zdigits2_le; [pose proof (Zdigits2_nonneg (shr_m mrs')); lia|].
    split; [assumption|].
    pose proof (Zdigits2_gt (shr_m mrs') H1) as Hg.
    rewrite Z.pow_add_r by (pose proof (Zdigits2_nonneg (shr_m mrs')); lia).
    lia. }
  assert (Hfin : e'' <= emax - prec).
  { unfold fexp, SpecFloat.emin, prec, emax in *. lia. }
  destruct (shr_m mrs''); try discriminate.
  destruct (Z.leb_spec e'' (emax - prec)); [discriminate | lia].
Qed.

(** The quotient of two positive ints below 1 is a finite float. *)
Lemma quotient_finite a b :
  0 < a < b -> forall s, quotient a b <> S754_infinity s.
Proof.
  intros [Ha Hab] s. unfold quotient, SFdiv_core_binary.
  rewrite !Z.abs_eq by lia.
  set (e' := Z.min _ _).
  assert (He' : e' <= 0) by (subst e'; lia).
  set (m' := match 0 - 0 - e' with Z.pos _ => _ | _ => _ end).
  assert (Hm' : 0 <= m' < b * 2 ^ (- e')).
  { subst m'. destruct (0 - 0 - e') as [|n|n] eqn:En.
    - replace (- e') with 0 by lia. cbn. lia.
    - rewrite Z.shiftl_mul_pow2 by lia.
      replace (- e') with (Z.pos n) by lia.
      assert (0 < 2 ^ Z.pos n) by (apply Z.pow_pos_nonneg; lia). nia.
    - lia. }
  destruct (Z.div_eucl m' b) as [q r] eqn:Eq.
  assert (Hq : q = m' / b) by (unfold Z.div; rewrite Eq; reflexivity).
  assert (Hqb : 0 <= q < 2 ^ (- e')).
  { subst q. split.
    - apply Z.div_pos; lia.
    - apply Z.div_lt_upper_bound; lia. }
  apply binary_round_aux_finite; [lia | | lia].
  pose proof (Zdigits2_le q (- e')). lia.
Qed.

Lemma int_truediv_proper a b :
  0 < a < b -> int_truediv a b = inr (quotient a b).
Proof.
  intros H. unfold int_truediv.
  destruct (Z.eqb_spec b 0); [lia|].
  destruct (Z.eqb_spec a 0); [lia|].
  pose proof (quotient_finite a b H) as Hf.
  destruct (quotient a b); try reflexivity.
  exfalso. eapply Hf. reflexivity.
Qed.

(** *** Quotients are canonical, and a quotient above 1 rounds to at least 1 *)

Lemma fexp_mono x y : x <= y -> fexp prec emax x <= fexp prec emax y.
Proof. unfold fexp. lia. Qed.

Lemma Zdigits2_mono a b : 0 <= a <= b -> Zdigits2 a <= Zdigits2 b.
Proof.
  intros [Ha Hab]. apply Zdigits2_le; [apply Zdigits2_nonneg|].
  pose proof (Zdigits2_gt b). lia.
Qed.

Lemma Zdigits2_lower m k : 0 <= k -> 2 ^ k <= m -> k + 1 <= Zdigits2 m.
Proof.
  intros Hk Hm.
  assert (H0 : 0 <= m) by (pose proof (Z.pow_pos_nonneg 2 k); lia).
  pose proof (Zdigits2_gt m H0) as Hg.
  pose proof (Zdigits2_nonneg m) as Hn.
  destruct (Z.lt_ge_cases k (Zdigits2 m)) as [|Hle]; [lia|].
  assert (2 ^ Zdigits2 m <= 2 ^ k) by (apply Z.pow_le_mono_r; lia). lia.
Qed.

Lemma Zdigits2_pos_lower p : 2 ^ (Zdigits2 (Z.pos p) - 1) <= Z.pos p.
Proof.
  cbn [Zdigits2]. rewrite digits2_size.
  pose proof (Pos.size_le p) as H.
  apply Pos2Z.pos_le_pos in H. rewrite Pos2Z.inj_pow in H.
  replace (Z.pos (Pos.size p)) with (Z.pos (Pos.size p) - 1 + 1) in H by lia.
  rewrite Z.pow_add_r in H by lia. lia.
Qed.

Lemma Zdigits2_zero m : 0 <= m -> Zdigits2 m = 0 -> m = 0.
Proof. destruct m; cbn; intros; lia. Qed.

(** A shift that is due makes the exponent the canonical one. *)
Lemma shr_fexp_canonical m e l :
  0 <= m -> e <= fexp prec emax (Zdigits2 m + e) ->
  snd (shr_fexp prec emax m e l) = fexp prec emax (Zdigits2 m + e) /\
  Zdigits2 m + e
  <= Zdigits2 (shr_m (fst (shr_fexp prec emax m e l))) + snd (shr_fexp prec emax m e l) /\
  (0 < shr_m (fst (shr_fexp prec emax m e l)) ->
   Zdigits2 (shr_m (fst (shr_fexp prec emax m e l))) + snd (shr_fexp prec emax m e l)
   = Zdigits2 m + e).
Proof.
  intros Hm Hdue. unfold shr_fexp, shr.
  set (x := fexp prec emax (Zdigits2 m + e)) in *.
  destruct (x - e) as [|n|n] eqn:En; cbn [fst snd];
    rewrite ?shr_record_of_loc_m; try lia.
  destruct (iter_shr_digits n (shr_record_of_loc m l)) as [H1 E1];
    [rewrite shr_record_of_loc_m; assumption|].
  rewrite shr_record_of_loc_m in E1.
  split; [lia|]. split; [lia|].
  intros Hpos.
  destruct (Z.le_gt_cases (Zdigits2 m - Z.pos n) 0) as [Hle|Hgt]; [|lia].
  rewrite Z.max_l in E1 by lia.
  apply Zdigits2_zero in E1; [lia | assumption].
Qed.

Lemma binary_round_aux_canonical sx mx ex lx s m e :
  0 <= mx -> ex <= fexp prec emax (Zdigits2 mx + ex) ->
  binary_round_aux prec emax sx mx ex lx = S754_finite s m e ->
  s = sx /\ e = fexp prec emax (Zdigits2 (Z.pos m) + e).
Proof.
  intros Hm Hdue. unfold binary_round_aux.
  destruct (shr_fexp_bound mx ex lx Hm) as (H1 & _ & _).
  destruct (shr_fexp_canonical mx ex lx Hm Hdue) as (E1 & L1 & _).
  destruct (shr_fexp prec emax mx ex lx) as [mrs' e'] eqn:S1.
  cbn [fst snd] in H1, E1, L1.
  set (mr := round_nearest_even (shr_m mrs') (loc_of_shr_record mrs')).
  pose proof (round_nearest_even_bound (shr_m mrs') (loc_of_shr_record mrs') H1) as Hr.
  fold mr in Hr.
  assert (Hmr : 0 <= mr) by lia.
  assert (Hdue' : e' <= fexp prec emax (Zdigits2 mr + e')).
  { rewrite E1. apply fexp_mono.
    pose proof (Zdigits2_mono (shr_m mrs') mr). lia. }
  destruct (shr_fexp_canonical mr e' loc_Exact Hmr Hdue') as (E2 & _ & C2).
  destruct (shr_fexp prec emax mr e' loc_Exact) as [mrs'' e''] eqn:S2.
  cbn [fst snd] in E2, C2.
  destruct (shr_m mrs'') as [|m''|m''] eqn:Hm''; try discriminate.
  destruct (e'' <=? emax - prec); [|discriminate].
  intros H. injection H as Hs Hmant Hexp. split; [congruence|].
  rewrite <- Hmant, <- Hexp.
  rewrite C2 by lia. exact E2.
Qed.

Lemma div_core_due mx ex my ey q e' l :
  SFdiv_core_binary prec emax (Z.pos mx) ex (Z.pos my) ey = (q, e', l) ->
  0 <= q /\ e' <= fexp prec emax (Zdigits2 q + e').
Proof.
  unfold SFdiv_core_binary.
  set (d1 := Zdigits2 (Z.pos mx)). set (d2 := Zdigits2 (Z.pos my)).
  set (D := d1 + ex - (d2 + ey)).
  set (e0 := Z.min (fexp prec emax D) (ex - ey)).
  set (m' := match ex - ey - e0 with Z.pos _ => _ | Z0 => _ | Z.neg _ => _ end).
  assert (Hs : 0 <= ex - ey - e0) by (subst e0; lia).
  assert (Hm' : m' = Z.pos mx * 2 ^ (ex - ey - e0)).
  { subst m'. destruct (ex - ey - e0) as [|n|n] eqn:En.
    - cbn. lia.
    - apply Z.shiftl_mul_pow2. lia.
    - lia. }
  clearbody m'.
  destruct (Z.div_eucl m' (Z.pos my)) as [q0 r0] eqn:Eq.
  assert (Hq : q0 = m' / Z.pos my) by (unfold Z.div; rewrite Eq; reflexivity).
  intros H. inversion H; subst q e' l; clear H.
  assert (Hpow : 0 < 2 ^ (ex - ey - e0)) by (apply Z.pow_pos_nonneg; lia).
  assert (Hq0 : 0 <= q0) by (subst q0; apply Z.div_pos; nia).
  split; [exact Hq0|].
  assert (Hdig : D <= Zdigits2 q0 + e0).
  { pose proof (Zdigits2_nonneg q0) as Hn.
    destruct (Z.le_gt_cases (d1 + (ex - ey - e0) - d2) 0) as [Hle|Hgt];
      [subst D; lia|].
    set (K := d1 - 1 + (ex - ey - e0) - d2).
    assert (HK : 0 <= K) by (subst K; lia).
    assert (Hlow : 2 ^ K <= q0).
    { subst q0. apply Z.div_le_lower_bound; [lia|].
      pose proof (Zdigits2_pos_lower mx) as Hx. fold d1 in Hx.
      pose proof (Zdigits2_gt (Z.pos my) ltac:(lia)) as Hy. fold d2 in Hy.
      assert (Hd1 : 1 <= d1) by (subst d1; cbn; lia).
      assert (Hd2 : 1 <= d2) by (subst d2; cbn; lia).
      assert (Hsplit : 2 ^ (d1 - 1) * 2 ^ (ex - ey - e0) = 2 ^ K * 2 ^ d2).
      { rewrite <- !Z.pow_add_r by lia. f_equal. subst K. lia. }
      assert (0 < 2 ^ K) by (apply Z.pow_pos_nonneg; lia).
      nia. }
    pose proof (Zdigits2_lower q0 K HK Hlow). subst K D. lia. }
  apply fexp_mono in Hdig. subst e0. lia.
Qed.

(** A finite quotient of two floats is canonical. *)
Lemma SFdiv_canonical x y s m e :
  SFdiv prec emax x y = S754_finite s m e ->
  e = fexp prec emax (Zdigits2 (Z.pos m) + e).
Proof.
  destruct x as [sx|sx| |sx mx ex], y as [sy|sy| |sy my ey]; cbn [SFdiv];
    try discriminate.
  destruct (SFdiv_core_binary prec emax (Z.pos mx) ex (Z.pos my) ey)
    as [[q e'] l] eqn:Hcore.
  destruct (div_core_due _ _ _ _ _ _ _ Hcore) as [Hq Hdue].
  intros H. exact (proj2 (binary_round_aux_canonical _ _ _ _ _ _ _ Hq Hdue H)).
Qed.

Lemma round_half_even_lower m e : Z.pos m / 2 ^ (- e) <= round_half_even m e.
Proof.
  unfold round_half_even. destruct e as [|p|p].
  - cbn. rewrite Z.div_1_r. lia.
  - rewrite Z.pow_neg_r by lia. rewrite Z.div_0_r.
    assert (0 < 2 ^ Z.pos p) by (apply Z.pow_pos_nonneg; lia). nia.
  - change (- Z.neg p) with (Z.pos p).
    destruct (2 * (Z.pos m mod 2 ^ Z.pos p) ?= 2 ^ Z.pos p); try lia.
    destruct (Z.even (Z.pos m / 2 ^ Z.pos p)); lia.
Qed.

Lemma compare_cont_Eq p q : Pos.compare_cont Eq p q = Pos.compare p q.
Proof. reflexivity. Qed.

(** A canonical float that is not at most 1 rounds to an int that is at
    least 1. *)
Lemma float_round_above_one x r :
  (forall s m e, x = S754_finite s m e -> e = fexp prec emax (Zdigits2 (Z.pos m) + e)) ->
  float_le_int x 1 = false ->
  float_round x = inr r ->
  1 <= r.
Proof.
  intros Hcan Hle Hr.
  destruct x as [s|s| |s m e]; cbn in Hle, Hr; try discriminate.
  specialize (Hcan s m e eq_refl).
  destruct s; [discriminate|].
  inversion Hr; subst r; clear Hr.
  pose proof (round_half_even_lower m e) as Hlow.
  unfold fexp, SpecFloat.emin, prec, emax in Hcan.
  revert Hle. unfold float_le_int, SFleb.
  change (float_of_int 1) with (S754_finite false 4503599627370496 (-52)).
  cbn [SFcompare].
  rewrite compare_cont_Eq.
  destruct (Z.compare_spec e (-52)) as [He|He|He].
  - subst e. destruct (Pos.compare_spec m 4503599627370496) as [Hm|Hm|Hm];
      try discriminate.
    intros _. change (- -52) with 52 in Hlow.
    assert (1 <= Z.pos m / 2 ^ 52).
    { apply Z.div_le_lower_bound; [reflexivity|].
      apply Pos2Z.pos_lt_pos in Hm. change (2 ^ 52) with 4503599627370496. lia. }
    lia.
  - discriminate.
  - intros _. assert (Hd : Zdigits2 (Z.pos m) = 53) by lia.
    pose proof (Zdigits2_pos_lower m) as Hm. rewrite Hd in Hm.
    change (2 ^ (53 - 1)) with (2 ^ 52) in Hm.
    destruct (Z.le_gt_cases 0 e) as [Hpos|Hneg].
    + unfold round_half_even. destruct e as [|p|p]; [cbn; lia | | lia].
      assert (0 < 2 ^ Z.pos p) by (apply Z.pow_pos_nonneg; lia).
      assert (0 < 2 ^ 52) by reflexivity. nia.
    + assert (1 <= Z.pos m / 2 ^ (- e)).
      { apply Z.div_le_lower_bound; [apply Z.pow_pos_nonneg; lia|].
        assert (2 ^ (- e) <= 2 ^ 52) by (apply Z.pow_le_mono_r; lia). lia. }
      lia.
Qed.

End PyFacts.

(** ** Facts about the trace monad *)

Module TraceFacts.
Section Facts.
Context {event : Type}.
Local Open Scope trace_scope.

Lemma bind_value {A B} (c : @Trace.M event A) (k : A -> Trace.M B) tr x :
  c = (tr, inr x) -> Trace.bind c k = (tr ++ fst (k x), snd (k x)).
Proof. intros ->. cbn. destruct (k x). reflexivity. Qed.

Lemma bind_raise {A B} (c : @Trace.M event A) (k : A -> Trace.M B) tr e :
  c = (tr, inl e) -> Trace.bind c k = (tr, inl e).
Proof. intros ->. reflexivity. Qed.

Lemma bind_lift {A B} (x : A) (k : A -> @Trace.M event B) :
  Trace.bind (Trace.lift (inr x)) k = k x.
Proof. cbn. destruct (k x). reflexivity. Qed.

Lemma bind_emit {B} (ev : event) (k : unit -> @Trace.M event B) :
  Trace.bind (Trace.emit ev) k = (ev :: fst (k tt), snd (k tt)).
Proof. cbn. destruct (k tt). reflexivity. Qed.

(** A loop whose every round runs to its end concatenates the rounds. *)
Lemma for_each_run {A} (l : list A) (body : A -> @Trace.M event unit)
    (tr : A -> list event) :
  Forall (fun x => body x = (tr x, inr tt)) l ->
  Trace.for_each l body = (flat_map tr l, inr tt).
Proof.
  induction 1 as [|x l Hx _ IH]; cbn [Trace.for_each flat_map]; [reflexivity|].
  erewrite bind_value by exact Hx. rewrite IH. reflexivity.
Qed.
End Facts.
End TraceFacts.

(** ** Facts about the upconverter *)

Module UpconverterFacts.
Import InterpolateVideo.
Section Facts.
Context {frame tensor : Type}.
Variable compatible : tensor -> tensor -> bool.
Variable IFRNet_init : gmap string tensor.
Variable inference : gmap string tensor -> frame -> frame -> Py.float -> frame.

Local Open Scope trace_scope.

Lemma write_between_run model count (f0 f1 : frame) :
  write_between inference model count f0 f1
  = (between_trace inference model count f0 f1, inr tt).
Proof.
  unfold write_between, between_trace.
  apply TraceFacts.for_each_run.
  apply Forall_forall. intros k Hk.
  apply list_elem_of_In, PyFacts.range_elem in Hk.
  rewrite PyFacts.int_truediv_proper by lia.
  rewrite TraceFacts.bind_lift. reflexivity.
Qed.

Lemma write_pairs_from model count (rest pre : list frame) :
  Trace.for_each
    (Py.range (Z.of_nat (length pre)) (Z.of_nat (length (pre ++ rest)) - 1))
    (fun i =>
       f0 <- Trace.lift (Py.getitem (pre ++ rest) i) ;;
       f1 <- Trace.lift (Py.getitem (pre ++ rest) (i + 1)) ;;
       Trace.emit (Write f0) ;;;
       write_between inference model count f0 f1)
  = (pairs_trace inference model count rest, inr tt).
Proof.
  revert pre. induction rest as [|f0 [|f1 tl] IH]; intros pre.
  - rewrite PyFacts.range_nil; [reflexivity|]. rewrite length_app. cbn. lia.
  - rewrite PyFacts.range_nil; [reflexivity|]. rewrite length_app. cbn. lia.
  - rewrite PyFacts.range_cons by (rewrite length_app; cbn [length]; lia).
    cbn [Trace.for_each pairs_trace].
    rewrite PyFacts.getitem_middle, TraceFacts.bind_lift.
    replace (pre ++ f0 :: f1 :: tl) with ((pre ++ [f0]) ++ f1 :: tl) at 1
      by (rewrite <- app_assoc; reflexivity).
    replace (Z.of_nat (length pre) + 1) with (Z.of_nat (length (pre ++ [f0])))
      by (rewrite length_app; cbn [length]; lia).
    rewrite PyFacts.getitem_middle, TraceFacts.bind_lift.
    rewrite write_between_run.
    specialize (IH (pre ++ [f0])).
    rewrite <- app_assoc in IH. cbn [app] in IH.
    rewrite TraceFacts.bind_emit. cbn [fst snd].
    erewrite TraceFacts.bind_value by reflexivity.
    rewrite IH. reflexivity.
Qed.

Lemma write_pairs_run model count (fs : list frame) :
  write_pairs inference model count fs
  = (pairs_trace inference model count fs, inr tt).
Proof. exact (write_pairs_from model count fs []). Qed.

(** *** What the trace of the loop writes and calls *)

Lemma written_app (t1 t2 : list (event frame)) :
  written (t1 ++ t2) = written t1 ++ written t2.
Proof. unfold written. apply omap_app. Qed.

Lemma interpolations_app (t1 t2 : list (event frame)) :
  interpolations (t1 ++ t2) = interpolations t1 ++ interpolations t2.
Proof. unfold interpolations. apply omap_app. Qed.

Lemma written_between model count (f0 f1 : frame) :
  written (between_trace inference model count f0 f1)
  = synthetic inference model count f0 f1.
Proof.
  unfold between_trace, synthetic.
  induction (Py.range 1 (count + 1)) as [|k l IH]; [reflexivity|].
  cbn [flat_map map]. rewrite written_app, IH. reflexivity.
Qed.

Lemma interpolations_between model count (f0 f1 : frame) :
  interpolations (between_trace inference model count f0 f1)
  = pair_calls count (f0, f1).
Proof.
  unfold between_trace, pair_calls.
  induction (Py.range 1 (count + 1)) as [|k l IH]; [reflexivity|].
  cbn [flat_map map]. rewrite interpolations_app, IH. reflexivity.
Qed.

Lemma written_pairs model count (fs : list frame) (last : frame) :
  written (pairs_trace inference model count (fs ++ [last])) ++ [last]
  = schedule inference model count (fs ++ [last]).
Proof.
  induction fs as [|f0 [|f1 tl] IH]; [reflexivity| |].
  - cbn [app pairs_trace schedule].
    change (written (Write f0 :: ?t)) with (f0 :: written t).
    rewrite written_app, written_between. cbn [pairs_trace written omap].
    rewrite app_nil_r. reflexivity.
  - change ((f0 :: f1 :: tl) ++ [last]) with (f0 :: f1 :: (tl ++ [last])).
    cbn [pairs_trace schedule].
    change (written (Write f0 :: ?t)) with (f0 :: written t).
    rewrite written_app, written_between.
    cbn [app]. f_equal. rewrite <- app_assoc. f_equal.
    exact IH.
Qed.

Lemma interpolations_pairs model count (fs : list frame) :
  interpolations (pairs_trace inference model count fs)
  = flat_map (pair_calls count) (combine fs (tl fs)).
Proof.
  induction fs as [|f0 [|f1 rest] IH]; [reflexivity | reflexivity |].
  change (pairs_trace inference model count (f0 :: f1 :: rest))
    with (Write f0 :: between_trace inference model count f0 f1
            ++ pairs_trace inference model count (f1 :: rest)).
  change (interpolations (Write f0 :: ?t)) with (interpolations t).
  rewrite interpolations_app, interpolations_between, IH. reflexivity.
Qed.

(** *** One run of [main] *)

Lemma main_run a E model cap fac count (pre : list frame) (last : frame) :
  load_model compatible IFRNet_init E (model_path a) = inr model ->
  videos E !! input a = Some cap ->
  factor (target_fps a) (fps cap) = inr fac ->
  interp_count fac = inr count ->
  frames cap = pre ++ [last] ->
  main compatible IFRNet_init inference a E
  = (OpenWriter (output a) (target_fps a) (width cap) (height cap)
       :: pairs_trace inference model count (frames cap) ++ [Write last; Release],
     inr tt).
Proof.
  intros Hload Hvid Hfac Hcount Hfs. unfold main.
  assert (Hlast : Py.getitem (frames cap) (-1) = inr last)
    by (rewrite Hfs; apply PyFacts.getitem_last).
  rewrite Hload, TraceFacts.bind_lift, Hvid.
  change (Trace.ret cap) with (@Trace.lift (event frame) _ (inr cap)).
  rewrite TraceFacts.bind_lift, Hfac, TraceFacts.bind_lift.
  cbv zeta. rewrite Hlast.
  rewrite TraceFacts.bind_emit, Hcount, TraceFacts.bind_lift.
  rewrite write_pairs_run.
  erewrite TraceFacts.bind_value by reflexivity.
  rewrite TraceFacts.bind_lift. reflexivity.
Qed.

Lemma main_written a E model cap fac count (pre : list frame) (last : frame) :
  load_model compatible IFRNet_init E (model_path a) = inr model ->
  videos E !! input a = Some cap ->
  factor (target_fps a) (fps cap) = inr fac ->
  interp_count fac = inr count ->
  frames cap = pre ++ [last] ->
  snd (main compatible IFRNet_init inference a E) = inr tt /\
  written (fst (main compatible IFRNet_init inference a E))
  = schedule inference model count (frames cap) /\
  interpolations (fst (main compatible IFRNet_init inference a E))
  = flat_map (pair_calls count) (combine (frames cap) (tl (frames cap))).
Proof.
  intros Hload Hvid Hfac Hcount Hfs.
  rewrite (main_run _ _ _ _ _ _ _ _ Hload Hvid Hfac Hcount Hfs).
  cbn [fst snd]. split; [reflexivity|]. split.
  - change (written (OpenWriter ?p ?r ?w ?h :: ?t)) with (written t).
    rewrite written_app. cbn [written omap].
    rewrite Hfs. apply written_pairs.
  - change (interpolations (OpenWriter ?p ?r ?w ?h :: ?t)) with (interpolations t).
    rewrite interpolations_app, interpolations_pairs.
    cbn [interpolations omap]. apply app_nil_r.
Qed.

(** *** Shape of the schedule *)

Lemma synthetic_length model count (f0 f1 : frame) :
  length (synthetic inference model count f0 f1) = Z.to_nat count.
Proof.
  unfold synthetic. rewrite length_map.
  apply Nat2Z.inj. rewrite PyFacts.range_length. lia.
Qed.

Lemma synthetic_nth model count (f0 f1 : frame) (k : Z) :
  1 <= k <= count ->
  nth_error (synthetic inference model count f0 f1) (Z.to_nat (k - 1))
  = Some (inference model f0 f1 (time_position count k)).
Proof.
  intros Hk. unfold synthetic.
  rewrite nth_error_map, PyFacts.range_lookup by lia.
  cbn [option_map]. do 3 f_equal. lia.
Qed.

Lemma schedule_stays model count (fs : list frame) :
  count <= 0 -> schedule inference model count fs = fs.
Proof.
  intros Hc. induction fs as [|f0 [|f1 tl] IH]; [reflexivity | reflexivity |].
  change (schedule inference model count (f0 :: f1 :: tl))
    with (f0 :: synthetic inference model count f0 f1
                ++ schedule inference model count (f1 :: tl)).
  rewrite IH. unfold synthetic. rewrite PyFacts.range_nil by lia. reflexivity.
Qed.

Lemma schedule_step model count (f0 f1 : frame) tl :
  schedule inference model count (f0 :: f1 :: tl)
  = f0 :: synthetic inference model count f0 f1
          ++ schedule inference model count (f1 :: tl).
Proof. reflexivity. Qed.

Lemma schedule_length model count (fs : list frame) :
  fs <> [] ->
  Z.of_nat (length (schedule inference model count fs))
  = Z.of_nat (length fs) + (Z.of_nat (length fs) - 1) * Z.max 0 count.
Proof.
  induction fs as [|f0 [|f1 tl] IH]; intros Hne; [congruence | cbn; lia |].
  rewrite schedule_step. cbn [length]. rewrite length_app, synthetic_length.
  assert (Hl : f1 :: tl <> []) by discriminate.
  specialize (IH Hl). cbn [length] in IH. lia.
Qed.

Lemma schedule_original model count : forall (fs : list frame) (i : nat) (f : frame),
  nth_error fs i = Some f ->
  nth_error (schedule inference model count fs) (i * (Z.to_nat count + 1)) = Some f.
Proof.
  induction fs as [|f0 [|f1 tl] IH]; intros i f Hi.
  - destruct i; discriminate.
  - destruct i as [|[|i]]; [exact Hi | discriminate | discriminate].
  - rewrite schedule_step. destruct i as [|i]; [exact Hi|].
    cbn [nth_error] in Hi.
    replace (S i * (Z.to_nat count + 1))%nat
      with (S (Z.to_nat count + i * (Z.to_nat count + 1)))%nat by lia.
    cbn [nth_error].
    rewrite nth_error_app2 by (rewrite synthetic_length; lia).
    rewrite synthetic_length.
    replace (Z.to_nat count + i * (Z.to_nat count + 1) - Z.to_nat count)%nat
      with (i * (Z.to_nat count + 1))%nat by lia.
    apply IH. exact Hi.
Qed.

Lemma schedule_between model count : forall (fs : list frame) (i : nat) (f0 f1 : frame) (k : Z),
  nth_error fs i = Some f0 ->
  nth_error fs (S i) = Some f1 ->
  1 <= k <= count ->
  nth_error (schedule inference model count fs)
            (i * (Z.to_nat count + 1) + Z.to_nat k)
  = Some (inference model f0 f1 (time_position count k)).
Proof.
  induction fs as [|g0 [|g1 tl] IH]; intros i f0 f1 k H0 H1 Hk.
  - destruct i; discriminate.
  - destruct i as [|[|i]]; discriminate.
  - rewrite schedule_step. destruct i as [|i].
    + cbn [nth_error] in H0, H1. inversion H0; inversion H1; subst.
      replace (0 * (Z.to_nat count + 1) + Z.to_nat k)%nat
        with (S (Z.to_nat (k - 1))) by lia.
      cbn [nth_error].
      rewrite nth_error_app1 by (rewrite synthetic_length; lia).
      apply synthetic_nth. exact Hk.
    + cbn [nth_error] in H0.
      change (nth_error (g0 :: g1 :: tl) (S (S i))) with (nth_error (g1 :: tl) (S i)) in H1.
      replace (S i * (Z.to_nat count + 1) + Z.to_nat k)%nat
        with (S (Z.to_nat count + (i * (Z.to_nat count + 1) + Z.to_nat k)))%nat by lia.
      cbn [nth_error].
      rewrite nth_error_app2 by (rewrite synthetic_length; lia).
      rewrite synthetic_length.
      replace (Z.to_nat count + (i * (Z.to_nat count + 1) + Z.to_nat k) - Z.to_nat count)%nat
        with (i * (Z.to_nat count + 1) + Z.to_nat k)%nat by lia.
      apply IH; assumption.
Qed.

Lemma pair_calls_length count (p : frame * frame) :
  length (pair_calls count p) = Z.to_nat count.
Proof.
  unfold pair_calls. rewrite length_map.
  apply Nat2Z.inj. rewrite PyFacts.range_length. lia.
Qed.

Lemma no_calls count (ps : list (frame * frame)) :
  count <= 0 -> flat_map (pair_calls count) ps = [].
Proof.
  intros Hc. induction ps as [|p ps IH]; [reflexivity|].
  cbn [flat_map]. rewrite IH. unfold pair_calls.
  rewrite PyFacts.range_nil by lia. reflexivity.
Qed.

Lemma nonempty_snoc (fs : list frame) :
  fs <> [] -> exists pre last, fs = pre ++ [last].
Proof.
  destruct fs as [|f fs] using rev_ind; [congruence|].
  intros _. eauto.
Qed.

Lemma factor_clamped target source q :
  Py.float_truediv target source = inr q ->
  Py.float_le_int q 1 = true ->
  factor target source = inr (Py.Int 1).
Proof. intros Hq Hle. unfold factor. rewrite Hq, Hle. reflexivity. Qed.

(** The count is never negative: the factor is the int 1 or a quotient
    above 1. *)
Lemma interp_count_nonneg target source fac N :
  factor target source = inr fac -> interp_count fac = inr N -> 0 <= N.
Proof.
  unfold factor, Py.float_truediv.
  destruct (Py.is_zero source); [discriminate|].
  destruct (Py.float_le_int (SFdiv Py.prec Py.emax target source) 1) eqn:Hle;
    intros Hfac; inversion Hfac; subst fac; clear Hfac.
  - cbn. intros H. inversion H. lia.
  - unfold interp_count. cbn [Py.round].
    destruct (Py.float_round (SFdiv Py.prec Py.emax target source)) as [e|r] eqn:Hr;
      [discriminate|].
    intros H. inversion H; subst N; clear H.
    pose proof (PyFacts.float_round_above_one _ r
                  (fun s m e Heq => PyFacts.SFdiv_canonical target source s m e Heq)
                  Hle Hr).
    lia.
Qed.

(** *** Loading a checkpoint *)

Lemma load_one_lax (sd : gmap string tensor) k r :
  (forall v w, IFRNet_init !! k = Some v -> sd !! k = Some w -> compatible v w = true) ->
  merge (load_one compatible false) IFRNet_init (Param <$> sd) !! k = Some r ->
  match IFRNet_init !! k with
  | Some v => r = inr (default v (sd !! k))
  | None => False
  end.
Proof.
  intros Hsize. rewrite lookup_merge, lookup_fmap.
  destruct (IFRNet_init !! k) as [v|] eqn:Hv, (sd !! k) as [w|] eqn:Hw;
    cbn; try discriminate.
  - rewrite (Hsize v w eq_refl eq_refl). congruence.
  - congruence.
Qed.

Lemma load_state_dict_lax (sd : gmap string tensor) :
  (forall k v w, IFRNet_init !! k = Some v -> sd !! k = Some w -> compatible v w = true) ->
  exists model,
    load_state_dict compatible IFRNet_init (Param <$> sd) false = inr model /\
    forall k, model !! k
              = match IFRNet_init !! k with
                | Some v => Some (default v (sd !! k))
                | None => None
                end.
Proof.
  intros Hsize. unfold load_state_dict.
  rewrite bool_decide_eq_true_2.
  - eexists. split; [reflexivity|].
    intros k. rewrite lookup_omap.
    destruct (merge (load_one compatible false) IFRNet_init (Param <$> sd) !! k)
      as [r|] eqn:Hk.
    + pose proof (load_one_lax sd k r (Hsize k) Hk) as H.
      destruct (IFRNet_init !! k); [subst r; reflexivity | contradiction].
    + rewrite lookup_merge, lookup_fmap in Hk.
      destruct (IFRNet_init !! k) as [v|]; [|reflexivity].
      destruct (sd !! k) as [w|]; cbn in Hk; discriminate.
  - apply map_Forall_lookup. intros k r Hk.
    pose proof (load_one_lax sd k r (Hsize k) Hk) as H.
    destruct (IFRNet_init !! k); [subst r; cbn; eauto | contradiction].
Qed.

(** Under [strict=True] an unknown name is fatal; the flag matters. *)
Lemma load_state_dict_strict_unknown (sd : gmap string (entry tensor)) k e :
  IFRNet_init !! k = None -> sd !! k = Some e ->
  load_state_dict compatible IFRNet_init sd true = inl Py.RuntimeError.
Proof.
  intros Hk He. unfold load_state_dict.
  rewrite bool_decide_eq_false_2; [reflexivity|].
  intros Hall. rewrite map_Forall_lookup in Hall.
  specialize (Hall k (inl Py.RuntimeError)).
  rewrite lookup_merge, Hk, He in Hall. cbn in Hall.
  destruct (Hall eq_refl) as [? ?]. discriminate.
Qed.

(** C6, amended: a flat mapping with no entry named "state_dict" and the
    same mapping wrapped under the key "state_dict" load to the same
    result; loading is non-strict in both forms, so it succeeds whatever
    names are unknown or missing (given that the tensors of the common
    names fit), each parameter taking the checkpoint's value when it has
    one and keeping its own otherwise. *)
Theorem both_forms_load (E : env frame tensor) flat wrapped outer
    (sd : gmap string tensor) :
  sd !! "state_dict"%string = None ->
  checkpoints E !! flat = Some (Param <$> sd) ->
  checkpoints E !! wrapped = Some outer ->
  outer !! "state_dict"%string = Some (Nested sd) ->
  load_model compatible IFRNet_init E flat
  = load_model compatible IFRNet_init E wrapped /\
  ((forall k v w, IFRNet_init !! k = Some v -> sd !! k = Some w ->
                  compatible v w = true) ->
   exists model,
     load_model compatible IFRNet_init E flat = inr model /\
     load_model compatible IFRNet_init E wrapped = inr model /\
     forall k, model !! k
               = match IFRNet_init !! k with
                 | Some v => Some (default v (sd !! k))
                 | None => None
                 end).
Proof.
  intros Hfree Hflat Hwrapped Houter.
  assert (Hf : load_model compatible IFRNet_init E flat
               = load_state_dict compatible IFRNet_init (Param <$> sd) false).
  { unfold load_model. rewrite Hflat, lookup_fmap, Hfree. reflexivity. }
  assert (Hw : load_model compatible IFRNet_init E wrapped
               = load_state_dict compatible IFRNet_init (Param <$> sd) false).
  { unfold load_model. rewrite Hwrapped, Houter. reflexivity. }
  rewrite Hf, Hw. split; [reflexivity|].
  intros Hsize. destruct (load_state_dict_lax sd Hsize) as (model & Hm & Hk).
  exists model. auto.
Qed.

(** *** The claims about the upconverter *)

(** C1: for a non-empty frame sequence, when [target_fps / source_fps <= 1]
    (the factor is replaced by 1) or the computed [interp_count] is 0, the
    run ends normally, the frames written are the input frames unchanged,
    and the interpolation is never called. *)
Theorem copy_when_not_upscaling a E model cap :
  load_model compatible IFRNet_init E (model_path a) = inr model ->
  videos E !! input a = Some cap ->
  frames cap <> [] ->
  (exists q, Py.float_truediv (target_fps a) (fps cap) = inr q /\
             Py.float_le_int q 1 = true)
  \/ (exists fac, factor (target_fps a) (fps cap) = inr fac /\
                  interp_count fac = inr 0) ->
  outcome compatible IFRNet_init inference a E = inr tt /\
  output_frames compatible IFRNet_init inference a E = frames cap /\
  calls compatible IFRNet_init inference a E = [].
Proof.
  intros Hload Hvid Hne Hcase.
  assert (Hplan : exists fac, factor (target_fps a) (fps cap) = inr fac /\
                              interp_count fac = inr 0).
  { destruct Hcase as [(q & Hq & Hle)|H]; [|exact H].
    exists (Py.Int 1). split; [|reflexivity].
    exact (factor_clamped _ _ _ Hq Hle). }
  destruct Hplan as (fac & Hfac & Hcount).
  destruct (nonempty_snoc _ Hne) as (pre & last & Hfs).
  destruct (main_written _ _ _ _ _ _ _ _ Hload Hvid Hfac Hcount Hfs) as (Hok & Hw & Hc).
  unfold outcome, output_frames, calls.
  rewrite Hok, Hw, Hc. split; [reflexivity|]. split.
  - apply schedule_stays. lia.
  - apply no_calls. lia.
Qed.

(** C2: for a video of exactly 2 frames and [interp_count = N], the output
    holds [2 + N] frames: frame 0, then the frames interpolated from
    (frame 0, frame 1) at [t = k / (N + 1)] for [k = 1 .. N] in ascending
    [k], then frame 1; these are all the calls of the interpolation. *)
Theorem two_frames a E model cap fac N (f0 f1 : frame) :
  load_model compatible IFRNet_init E (model_path a) = inr model ->
  videos E !! input a = Some cap ->
  factor (target_fps a) (fps cap) = inr fac ->
  interp_count fac = inr N ->
  frames cap = [f0; f1] ->
  outcome compatible IFRNet_init inference a E = inr tt /\
  output_frames compatible IFRNet_init inference a E
  = [f0] ++ map (fun k => inference model f0 f1 (time_position N k))
                (Py.range 1 (N + 1))
         ++ [f1] /\
  Z.of_nat (length (output_frames compatible IFRNet_init inference a E)) = 2 + N /\
  calls compatible IFRNet_init inference a E
  = map (fun k => (f0, f1, time_position N k)) (Py.range 1 (N + 1)) /\
  (forall k, 1 <= k <= N -> Py.int_truediv k (N + 1) = inr (time_position N k)).
Proof.
  intros Hload Hvid Hfac Hcount Hfs.
  pose proof (interp_count_nonneg _ _ _ _ Hfac Hcount) as HN.
  destruct (main_written _ _ _ _ _ _ [f0] f1 Hload Hvid Hfac Hcount Hfs)
    as (Hok & Hw & Hc).
  unfold outcome, output_frames, calls.
  rewrite Hok, Hw, Hc, Hfs. repeat split.
  - rewrite schedule_length by discriminate. cbn [length]. lia.
  - cbn [tl combine flat_map]. rewrite app_nil_r. reflexivity.
  - intros k Hk. apply PyFacts.int_truediv_proper. lia.
Qed.

(** C3: the upconverter computes [factor = target_fps / source_fps] (kept
    when above 1, replaced by 1 otherwise) and
    [interp_count = round(factor) - 1]; this one integer serves every
    consecutive pair of frames: the calls of the interpolation are, pair
    after pair, those for [k = 1 .. interp_count], and each pair receives
    the same number of synthetic frames. *)
Theorem one_count_for_all_pairs a E model cap q r :
  load_model compatible IFRNet_init E (model_path a) = inr model ->
  videos E !! input a = Some cap ->
  frames cap <> [] ->
  Py.float_truediv (target_fps a) (fps cap) = inr q ->
  Py.round (if Py.float_le_int q 1 then Py.Int 1 else Py.Float q) = inr r ->
  factor (target_fps a) (fps cap)
  = inr (if Py.float_le_int q 1 then Py.Int 1 else Py.Float q) /\
  interp_count (if Py.float_le_int q 1 then Py.Int 1 else Py.Float q) = inr (r - 1) /\
  outcome compatible IFRNet_init inference a E = inr tt /\
  output_frames compatible IFRNet_init inference a E
  = schedule inference model (r - 1) (frames cap) /\
  calls compatible IFRNet_init inference a E
  = flat_map (pair_calls (r - 1)) (combine (frames cap) (tl (frames cap))) /\
  (forall p : frame * frame, Z.of_nat (length (pair_calls (r - 1) p)) = r - 1).
Proof.
  intros Hload Hvid Hne Hq Hr.
  assert (Hfac : factor (target_fps a) (fps cap)
                 = inr (if Py.float_le_int q 1 then Py.Int 1 else Py.Float q))
    by (unfold factor; rewrite Hq; reflexivity).
  assert (Hcount : interp_count (if Py.float_le_int q 1 then Py.Int 1 else Py.Float q)
                   = inr (r - 1))
    by (unfold interp_count; rewrite Hr; reflexivity).
  destruct (nonempty_snoc _ Hne) as (pre & last & Hfs).
  destruct (main_written _ _ _ _ _ _ _ _ Hload Hvid Hfac Hcount Hfs) as (Hok & Hw & Hc).
  unfold outcome, output_frames, calls.
  repeat split; try assumption.
  intros p. rewrite pair_calls_length.
  pose proof (interp_count_nonneg _ _ _ _ Hfac Hcount). lia.
Qed.

(** C4 (the code at the failing input): on a video with no frame the writer
    is opened, nothing is written, and [frames[-1]] raises [IndexError];
    the writer is not released. *)
Theorem empty_video_raises a E model cap fac count :
  load_model compatible IFRNet_init E (model_path a) = inr model ->
  videos E !! input a = Some cap ->
  factor (target_fps a) (fps cap) = inr fac ->
  interp_count fac = inr count ->
  frames cap = [] ->
  main compatible IFRNet_init inference a E
  = ([OpenWriter (output a) (target_fps a) (width cap) (height cap)],
     inl Py.IndexError).
Proof.
  intros Hload Hvid Hfac Hcount Hfs. unfold main.
  rewrite Hload, TraceFacts.bind_lift, Hvid.
  change (Trace.ret cap) with (@Trace.lift (event frame) _ (inr cap)).
  rewrite TraceFacts.bind_lift, Hfac, TraceFacts.bind_lift.
  cbv zeta. rewrite Hfs.
  rewrite TraceFacts.bind_emit, Hcount, TraceFacts.bind_lift.
  rewrite write_pairs_run, PyFacts.getitem_nil. reflexivity.
Qed.

(** C5: for a video of exactly 1 frame the output is exactly that frame;
    the loop over the pairs has no round and the interpolation is never
    called. *)
Theorem one_frame a E model cap fac count (f : frame) :
  load_model compatible IFRNet_init E (model_path a) = inr model ->
  videos E !! input a = Some cap ->
  factor (target_fps a) (fps cap) = inr fac ->
  interp_count fac = inr count ->
  frames cap = [f] ->
  write_pairs inference model count (frames cap) = ([], inr tt) /\
  main compatible IFRNet_init inference a E
  = ([OpenWriter (output a) (target_fps a) (width cap) (height cap);
      Write f; Release], inr tt) /\
  output_frames compatible IFRNet_init inference a E = [f] /\
  calls compatible IFRNet_init inference a E = [].
Proof.
  intros Hload Hvid Hfac Hcount Hfs.
  pose proof (main_run _ _ _ _ _ _ [] f Hload Hvid Hfac Hcount Hfs) as Hrun.
  unfold output_frames, calls. rewrite Hrun, write_pairs_run, Hfs.
  repeat split.
Qed.

(** C9: for [n >= 1] input frames and [interp_count = N >= 0] the output
    holds [n + (n - 1) * N] frames; input frame [i] sits at position
    [i * (N + 1)], and the [N] positions after it, up to the next input
    frame, hold the frames interpolated from frames [i] and [i + 1] at
    [k / (N + 1)], [k = 1 .. N]. *)
Theorem output_layout a E model cap fac N :
  load_model compatible IFRNet_init E (model_path a) = inr model ->
  videos E !! input a = Some cap ->
  factor (target_fps a) (fps cap) = inr fac ->
  interp_count fac = inr N ->
  frames cap <> [] ->
  let n := Z.of_nat (length (frames cap)) in
  let out := output_frames compatible IFRNet_init inference a E in
  0 <= N /\
  outcome compatible IFRNet_init inference a E = inr tt /\
  Z.of_nat (length out) = n + (n - 1) * N /\
  (forall i f, nth_error (frames cap) i = Some f ->
               nth_error out (i * (Z.to_nat N + 1)) = Some f) /\
  (forall i f0 f1 k,
      nth_error (frames cap) i = Some f0 ->
      nth_error (frames cap) (S i) = Some f1 ->
      1 <= k <= N ->
      nth_error out (i * (Z.to_nat N + 1) + Z.to_nat k)
      = Some (inference model f0 f1 (time_position N k))).
Proof.
  intros Hload Hvid Hfac Hcount Hne n out.
  pose proof (interp_count_nonneg _ _ _ _ Hfac Hcount) as HN.
  destruct (nonempty_snoc _ Hne) as (pre & last & Hfs).
  destruct (main_written _ _ _ _ _ _ _ _ Hload Hvid Hfac Hcount Hfs) as (Hok & Hw & _).
  subst out n. unfold outcome, output_frames. rewrite Hw.
  split; [exact HN|]. split; [exact Hok|]. split; [|split].
  - rewrite schedule_length by exact Hne. lia.
  - apply schedule_original.
  - apply schedule_between.
Qed.

(** C10: the ratio is taken without a test of the source rate: when the
    decoder reports a frame rate of 0 the run stops at the division with
    [ZeroDivisionError], before the writer is opened and before any frame
    is written; it is not a copy of the input. *)
Theorem zero_rate_raises a E model cap :
  load_model compatible IFRNet_init E (model_path a) = inr model ->
  videos E !! input a = Some cap ->
  Py.is_zero (fps cap) = true ->
  main compatible IFRNet_init inference a E = ([], inl Py.ZeroDivisionError) /\
  output_frames compatible IFRNet_init inference a E = [].
Proof.
  intros Hload Hvid Hzero.
  assert (Hrun : main compatible IFRNet_init inference a E
                 = ([], inl Py.ZeroDivisionError)).
  { unfold main.
    rewrite Hload, TraceFacts.bind_lift, Hvid.
    change (Trace.ret cap) with (@Trace.lift (event frame) _ (inr cap)).
    rewrite TraceFacts.bind_lift.
    unfold factor, Py.float_truediv. rewrite Hzero. reflexivity. }
  unfold output_frames. rewrite Hrun. split; reflexivity.
Qed.

End Facts.

(** *** The claims at the sample videos *)

Import Sample.

Lemma sample_model :
  load_model same_size fresh disk "flat.pth" = inr weights.
Proof. vm_compute. reflexivity. Qed.

Lemma both_forms_load_witness :
  load_model (frame := picture) same_size fresh disk "flat.pth"
  = load_model same_size fresh disk "wrapped.pth" /\
  ((forall k v w, fresh !! k = Some v -> weights !! k = Some w -> same_size v w = true) ->
   exists model,
     load_model (frame := picture) same_size fresh disk "flat.pth" = inr model /\
     load_model same_size fresh disk "wrapped.pth" = inr model /\
     forall k, model !! k
               = match fresh !! k with
                 | Some v => Some (default v (weights !! k))
                 | None => None
                 end).
Proof.
  apply (both_forms_load same_size fresh disk "flat.pth" "wrapped.pth"
           {[ "state_dict"%string := Nested weights ]} weights).
  - vm_compute. reflexivity.
  - vm_compute. reflexivity.
  - vm_compute. reflexivity.
  - vm_compute. reflexivity.
Defined.

(** C6 as stated fails: a flat mapping with an entry named "state_dict" is
    taken for the wrapped form and does not load, while the same mapping
    wrapped does. *)
Lemma flat_entry_named_state_dict :
  checkpoints shelf !! "flat.pth"%string = Some (Param <$> odd) /\
  checkpoints shelf !! "wrapped.pth"%string
  = Some {[ "state_dict"%string := Nested odd ]} /\
  load_model same_size fresh shelf "flat.pth" = inl Py.TypeError /\
  load_model same_size fresh shelf "wrapped.pth"
  = inr (<[ "conv.weight"%string := 7 ]> fresh) /\
  load_model same_size fresh shelf "flat.pth"
  <> load_model same_size fresh shelf "wrapped.pth".
Proof.
  repeat split; try (vm_compute; reflexivity).
  vm_compute. discriminate.
Qed.

Lemma copy_when_not_upscaling_witness :
  outcome same_size fresh blend (job "three.mp4" 24) disk = inr tt /\
  output_frames same_size fresh blend (job "three.mp4" 24) disk
  = [Shot 1; Shot 2; Shot 3] /\
  calls same_size fresh blend (job "three.mp4" 24) disk = [].
Proof.
  apply (copy_when_not_upscaling same_size fresh blend
           (job "three.mp4" 24) disk weights (clip 30 [1; 2; 3])).
  - vm_compute. reflexivity.
  - vm_compute. reflexivity.
  - discriminate.
  - left. exists (SFdiv Py.prec Py.emax (Py.float_of_int 24) (Py.float_of_int 30)).
    split; vm_compute; reflexivity.
Defined.

Lemma two_frames_witness :
  outcome same_size fresh blend (job "two.mp4" 90) disk = inr tt /\
  output_frames same_size fresh blend (job "two.mp4" 90) disk
  = [Shot 1] ++ map (fun k => blend weights (Shot 1) (Shot 2) (time_position 2 k))
                    (Py.range 1 (2 + 1))
             ++ [Shot 2] /\
  Z.of_nat (length (output_frames same_size fresh blend (job "two.mp4" 90) disk))
  = 2 + 2 /\
  calls same_size fresh blend (job "two.mp4" 90) disk
  = map (fun k => (Shot 1, Shot 2, time_position 2 k)) (Py.range 1 (2 + 1)) /\
  (forall k, 1 <= k <= 2 -> Py.int_truediv k (2 + 1) = inr (time_position 2 k)).
Proof.
  apply (two_frames same_size fresh blend (job "two.mp4" 90) disk weights
           (clip 30 [1; 2]) (Py.Float (Py.float_of_int 3)) 2 (Shot 1) (Shot 2)).
  - vm_compute. reflexivity.
  - vm_compute. reflexivity.
  - vm_compute. reflexivity.
  - vm_compute. reflexivity.
  - reflexivity.
Defined.

Lemma one_count_for_all_pairs_witness :
  factor (Py.float_of_int 90) (Py.float_of_int 30) = inr (Py.Float (Py.float_of_int 3)) /\
  interp_count (Py.Float (Py.float_of_int 3)) = inr 2 /\
  outcome same_size fresh blend (job "three.mp4" 90) disk = inr tt /\
  output_frames same_size fresh blend (job "three.mp4" 90) disk
  = schedule blend weights 2 [Shot 1; Shot 2; Shot 3] /\
  calls same_size fresh blend (job "three.mp4" 90) disk
  = flat_map (pair_calls 2) [(Shot 1, Shot 2); (Shot 2, Shot 3)] /\
  (forall p : picture * picture, Z.of_nat (length (pair_calls 2 p)) = 2).
Proof.
  apply (one_count_for_all_pairs same_size fresh blend (job "three.mp4" 90) disk
           weights (clip 30 [1; 2; 3]) (Py.float_of_int 3) 3).
  - vm_compute. reflexivity.
  - vm_compute. reflexivity.
  - discriminate.
  - vm_compute. reflexivity.
  - vm_compute. reflexivity.
Defined.

Lemma empty_video_raises_witness :
  run "none.mp4" 60
  = ([OpenWriter "out_interpolated.mp4" (Py.float_of_int 60) 4 4], inl Py.IndexError).
Proof.
  apply (empty_video_raises same_size fresh blend (job "none.mp4" 60) disk weights
           (clip 30 []) (Py.Float (Py.float_of_int 2)) 1).
  - vm_compute. reflexivity.
  - vm_compute. reflexivity.
  - vm_compute. reflexivity.
  - vm_compute. reflexivity.
  - reflexivity.
Defined.

Lemma one_frame_witness :
  write_pairs blend weights 1 [Shot 1] = ([], inr tt) /\
  run "one.mp4" 60
  = ([OpenWriter "out_interpolated.mp4" (Py.float_of_int 60) 4 4;
      Write (Shot 1); Release], inr tt) /\
  output_frames same_size fresh blend (job "one.mp4" 60) disk = [Shot 1] /\
  calls same_size fresh blend (job "one.mp4" 60) disk = [].
Proof.
  apply (one_frame same_size fresh blend (job "one.mp4" 60) disk weights
           (clip 30 [1]) (Py.Float (Py.float_of_int 2)) 1 (Shot 1)).
  - vm_compute. reflexivity.
  - vm_compute. reflexivity.
  - vm_compute. reflexivity.
  - vm_compute. reflexivity.
  - reflexivity.
Defined.

Lemma output_layout_witness :
  let out := output_frames same_size fresh blend (job "three.mp4" 90) disk in
  0 <= 2 /\
  outcome same_size fresh blend (job "three.mp4" 90) disk = inr tt /\
  Z.of_nat (length out) = 3 + (3 - 1) * 2 /\
  (forall i f, nth_error [Shot 1; Shot 2; Shot 3] i = Some f ->
               nth_error out (i * (Z.to_nat 2 + 1)) = Some f) /\
  (forall i f0 f1 k,
      nth_error [Shot 1; Shot 2; Shot 3] i = Some f0 ->
      nth_error [Shot 1; Shot 2; Shot 3] (S i) = Some f1 ->
      1 <= k <= 2 ->
      nth_error out (i * (Z.to_nat 2 + 1) + Z.to_nat k)
      = Some (blend weights f0 f1 (time_position 2 k))).
Proof.
  apply (output_layout same_size fresh blend (job "three.mp4" 90) disk weights
           (clip 30 [1; 2; 3]) (Py.Float (Py.float_of_int 3)) 2).
  - vm_compute. reflexivity.
  - vm_compute. reflexivity.
  - vm_compute. reflexivity.
  - vm_compute. reflexivity.
  - discriminate.
Defined.

Lemma zero_rate_raises_witness :
  run "still.mp4" 24 = ([], inl Py.ZeroDivisionError) /\
  output_frames same_size fresh blend (job "still.mp4" 24) disk = [].
Proof.
  apply (zero_rate_raises same_size fresh blend (job "still.mp4" 24) disk weights
           (clip 0 [1; 2])).
  - vm_compute. reflexivity.
  - vm_compute. reflexivity.
  - reflexivity.
Defined.

End UpconverterFacts.

(** ** Facts about the state monad *)

Module StateFacts.
Section Facts.
Context {world : Type}.
Local Open Scope state_scope.

Lemma bind_returns {A B} (c : @State.M world A) (k : A -> State.M B) w w1 x :
  c w = (w1, inr x) -> State.bind c k w = k x w1.
Proof. intros H. unfold State.bind. rewrite H. reflexivity. Qed.

Lemma bind_raises {A B} (c : @State.M world A) (k : A -> State.M B) w w1 e :
  c w = (w1, inl e) -> State.bind c k w = (w1, inl e).
Proof. intros H. unfold State.bind. rewrite H. reflexivity. Qed.

Lemma preserves_ret {A} (P : world -> Prop) (x : A) : State.preserves P (State.ret x).
Proof. intros w H. exact H. Qed.

Lemma preserves_raise {A} (P : world -> Prop) e : State.preserves P (@State.raise _ A e).
Proof. intros w H. exact H. Qed.

Lemma preserves_lift {A} (P : world -> Prop) (r : Py.exn + A) :
  State.preserves P (State.lift r).
Proof. intros w H. exact H. Qed.

Lemma preserves_get (P : world -> Prop) : State.preserves P State.get.
Proof. intros w H. exact H. Qed.

Lemma preserves_modify (P : world -> Prop) (f : world -> world) :
  (forall w, P w -> P (f w)) -> State.preserves P (State.modify f).
Proof. intros Hf w H. apply Hf, H. Qed.

Lemma preserves_bind {A B} (P : world -> Prop) (c : State.M A) (k : A -> State.M B) :
  State.preserves P c -> (forall x, State.preserves P (k x)) ->
  State.preserves P (State.bind c k).
Proof.
  intros Hc Hk w H. unfold State.bind.
  specialize (Hc w H). destruct (c w) as [w1 [e|x]]; cbn [fst] in *.
  - exact Hc.
  - apply Hk, Hc.
Qed.

Lemma preserves_for_each {A} (P : world -> Prop) (l : list A) (body : A -> State.M unit) :
  (forall x, State.preserves P (body x)) ->
  State.preserves P (State.for_each l body).
Proof.
  intros Hb. induction l as [|x l IH]; cbn [State.for_each].
  - apply preserves_ret.
  - apply preserves_bind; [apply Hb | intros _; exact IH].
Qed.

End Facts.
End StateFacts.

Create HintDb preserves.

#[export] Hint Resolve StateFacts.preserves_ret StateFacts.preserves_raise
  StateFacts.preserves_lift StateFacts.preserves_get StateFacts.preserves_modify
  StateFacts.preserves_bind StateFacts.preserves_for_each : preserves.

(** ** Facts about the fetcher *)

Module FetcherFacts.
Import DownloadCheckpoints.

(** *** Regular files stay regular *)

Lemma is_file_true p d : is_file p d = true <-> is_Some (files d !! p).
Proof. unfold is_file. apply bool_decide_eq_true. Qed.

Lemma is_dir_false p d : is_dir p d = false <-> p <> [] /\ p ∉ dirs d.
Proof.
  unfold is_dir. rewrite bool_decide_eq_false. split.
  - intros H. split; intros ?; apply H; auto.
  - intros [H1 H2] [?|?]; auto.
Qed.

Lemma os_mkdir_keeps p q : keeps p (os_mkdir q).
Proof.
  intros d d' H Hf Hd. unfold os_mkdir in H.
  destruct (path_exists q d) eqn:Hq; [discriminate|].
  destruct (is_dir (parent q) d); [|destruct (is_file (parent q) d); discriminate].
  inversion H; subst d'; clear H. split.
  - exact Hf.
  - apply is_dir_false in Hd as [Hne Hnd]. apply is_dir_false.
    split; [exact Hne|]. intros Hin.
    apply elem_of_union in Hin as [Hin|Hin]; [|contradiction].
    apply elem_of_singleton in Hin. subst q.
    unfold path_exists in Hq. rewrite Hf in Hq. discriminate.
Qed.

Lemma mkdir_one_keeps p q ok : keeps p (mkdir_one q ok).
Proof.
  intros d d' H Hf Hd. unfold mkdir_one in H.
  destruct (os_mkdir q d) as [e|d1] eqn:Hm.
  - destruct e; try discriminate;
      (destruct (ok && is_dir q d); [inversion H; subst; auto | discriminate]).
  - inversion H; subst. exact (os_mkdir_keeps p q d d' Hm Hf Hd).
Qed.

Lemma mkdir_parents_keeps p rq : forall ok, keeps p (mkdir_parents rq ok).
Proof.
  induction rq as [|c up IH]; intros ok d d' H Hf Hd; cbn [mkdir_parents] in H.
  - destruct (os_mkdir (rev []) d) as [e|d1] eqn:Hm.
    + destruct e; try discriminate;
        (destruct (ok && is_dir (rev []) d); [inversion H; subst; auto | discriminate]).
    + inversion H; subst. exact (os_mkdir_keeps p _ d d' Hm Hf Hd).
  - destruct (os_mkdir (rev (c :: up)) d) as [e|d1] eqn:Hm.
    + destruct e; try discriminate;
        try (destruct (ok && is_dir (rev (c :: up)) d);
             [inversion H; subst; auto | discriminate]).
      destruct (mkdir_parents up true d) as [e|d1] eqn:Hup; [discriminate|].
      destruct (IH true d d1 Hup Hf Hd) as [Hf1 Hd1].
      exact (mkdir_one_keeps p _ ok d1 d' H Hf1 Hd1).
    + inversion H; subst. exact (os_mkdir_keeps p _ d d' Hm Hf Hd).
Qed.

Lemma mkdir_keeps p q parents ok : keeps p (mkdir q parents ok).
Proof.
  unfold mkdir. destruct parents.
  - apply mkdir_parents_keeps.
  - apply mkdir_one_keeps.
Qed.

Lemma makedirs_missing_keeps p q : keeps p (makedirs_missing q).
Proof.
  intros d d' H Hf Hd. unfold makedirs_missing in H.
  destruct (path_exists q d).
  - inversion H; subst; auto.
  - exact (mkdir_keeps p q true false d d' H Hf Hd).
Qed.

Lemma mkdir_missing_keeps p q : keeps p (mkdir_missing q).
Proof.
  intros d d' H Hf Hd. unfold mkdir_missing in H.
  destruct (is_dir q d).
  - inversion H; subst; auto.
  - exact (os_mkdir_keeps p q d d' H Hf Hd).
Qed.

Lemma open_wb_keeps p q : keeps p (open_wb q).
Proof.
  intros d d' H Hf Hd. unfold open_wb in H.
  destruct (is_dir q d); [discriminate|].
  destruct (is_dir (parent q) d); [|destruct (is_file (parent q) d); discriminate].
  inversion H; subst d'; clear H. split; [|exact Hd].
  apply is_file_true. apply is_file_true in Hf. cbn [files].
  destruct (decide (q = p)) as [->|Hne].
  - rewrite lookup_insert_eq. eauto.
  - rewrite lookup_insert_ne by exact Hne. exact Hf.
Qed.

Lemma open_wb_regular p d d' :
  open_wb p d = inr d' ->
  files d' = <[ p := [] ]> (files d) /\ dirs d' = dirs d /\ is_dir p d = false.
Proof.
  unfold open_wb. destruct (is_dir p d); [discriminate|].
  destruct (is_dir (parent p) d); [|destruct (is_file (parent p) d); discriminate].
  intros H. inversion H; subst. auto.
Qed.

Lemma append_regular p q chunk w :
  regular p w -> regular p (on_disk (append q chunk) w).
Proof.
  intros [Hf Hd]. split; [|exact Hd].
  apply is_file_true. apply is_file_true in Hf. cbn.
  destruct (decide (q = p)) as [->|Hne].
  - rewrite lookup_insert_eq. eauto.
  - rewrite lookup_insert_ne by exact Hne. exact Hf.
Qed.

Lemma new_bar_regular p b w : regular p w -> regular p (new_bar b w).
Proof. intros H. exact H. Qed.

Lemma update_bar_regular p n w : regular p w -> regular p (update_bar n w).
Proof. intros H. exact H. Qed.

Lemma fs_op_regular p f : keeps p f -> State.preserves (regular p) (fs_op f).
Proof.
  intros Hk w [Hf Hd]. unfold fs_op.
  destruct (f (disk w)) as [e|d'] eqn:Hop; cbn [fst]; [split; assumption|].
  exact (Hk _ _ Hop Hf Hd).
Qed.

#[local] Hint Resolve fs_op_regular append_regular new_bar_regular update_bar_regular
  mkdir_keeps makedirs_missing_keeps mkdir_missing_keeps open_wb_keeps : preserves.

Section Facts.
Variable int_of_string : string -> option Z.
Variable unzip : list Byte.byte -> Py.exn + list member.
Variable repo_root : list string.

Local Open Scope state_scope.

Lemma extract_regular p m dir : State.preserves (regular p) (extract m dir).
Proof.
  unfold extract. destruct m as [t content [e|]|t]; auto 10 with preserves.
Qed.

Lemma extract_zip_regular p zp dir :
  State.preserves (regular p) (extract_zip unzip zp dir).
Proof.
  unfold extract_zip.
  apply StateFacts.preserves_bind; [apply StateFacts.preserves_get|]. intros w0.
  pose proof (extract_regular p) as He.
  auto 10 with preserves.
Qed.

(** *** Only [requests.get] talks to the server *)

Lemma fs_op_quiet s n f : State.preserves (quiet s n) (fs_op f).
Proof.
  intros w H. unfold fs_op. destruct (f (disk w)); exact H.
Qed.

Lemma on_disk_quiet s n f w : quiet s n w -> quiet s n (on_disk f w).
Proof. intros H. exact H. Qed.

Lemma new_bar_quiet s n b w : quiet s n w -> quiet s n (new_bar b w).
Proof. intros H. exact H. Qed.

Lemma update_bar_quiet s n k w : quiet s n w -> quiet s n (update_bar k w).
Proof. intros H. exact H. Qed.

Lemma raise_for_status_quiet s n r : State.preserves (quiet s n) (raise_for_status r).
Proof.
  unfold raise_for_status.
  destruct ((400 <=? status r) && (status r <? 600)); auto with preserves.
Qed.

#[local] Hint Resolve fs_op_quiet on_disk_quiet new_bar_quiet update_bar_quiet
  raise_for_status_quiet : preserves.

Lemma store_chunk_quiet s n p chunk : State.preserves (quiet s n) (store_chunk p chunk).
Proof. destruct chunk; cbn [store_chunk]; auto 10 with preserves. Qed.

Lemma store_chunk_regular p q chunk : State.preserves (regular p) (store_chunk q chunk).
Proof. destruct chunk; cbn [store_chunk]; auto 10 with preserves. Qed.

Lemma iter_content_quiet s n r body_of :
  (forall c, State.preserves (quiet s n) (body_of c)) ->
  State.preserves (quiet s n) (iter_content r body_of).
Proof. intros H. unfold iter_content. destruct (broken r); auto 10 with preserves. Qed.

Lemma iter_content_regular p r body_of :
  (forall c, State.preserves (regular p) (body_of c)) ->
  State.preserves (regular p) (iter_content r body_of).
Proof. intros H. unfold iter_content. destruct (broken r); auto 10 with preserves. Qed.

(** Whatever the outcome, [download_file] sends exactly one request and
    uses up exactly one answer. *)
Lemma download_file_one_request url filepath w :
  quiet (sent w ++ [url]) (tl (network w))
        (fst (download_file int_of_string url filepath w)).
Proof.
  unfold download_file. unfold State.bind at 1. unfold requests_get.
  destruct (network w) as [|[|r] rest]; cbn [fst tl]; try (split; reflexivity).
  match goal with
  | |- quiet ?s ?n (fst (?c ?w0)) =>
      enough (Hp : State.preserves (quiet s n) c) by (apply Hp; split; reflexivity)
  end.
  pose proof (store_chunk_quiet (sent w ++ [url]) rest filepath) as Hc.
  pose proof (iter_content_quiet (sent w ++ [url]) rest r _ Hc) as Hi.
  auto 12 with preserves.
Qed.

(** After a download that ended well the file is a regular file. *)
Lemma download_file_regular url filepath w w' :
  download_file int_of_string url filepath w = (w', inr tt) ->
  regular filepath w'.
Proof.
  unfold download_file, State.bind.
  destruct (requests_get url w) as [w1 [e|r]]; [discriminate|].
  destruct (raise_for_status r w1) as [w2 [e|[]]]; [discriminate|].
  unfold State.lift. destruct (total_size int_of_string r) as [e|size]; [discriminate|].
  destruct (fs_op (mkdir (parent filepath) true true) w2) as [w3 [e|[]]];
    [discriminate|].
  unfold fs_op at 1.
  destruct (open_wb filepath (disk w3)) as [e|d4] eqn:Hopen; [discriminate|].
  destruct (open_wb_regular _ _ _ Hopen) as (Hfiles & Hdirs & Hnd).
  unfold State.modify at 1.
  intros Hrest.
  assert (Hreg : regular filepath
            (new_bar (Bar (name filepath) size 0) (on_disk (fun _ => d4) w3))).
  { split; cbn.
    - apply is_file_true. rewrite Hfiles, lookup_insert_eq. eauto.
    - unfold is_dir in *. rewrite Hdirs. exact Hnd. }
  pose proof (iter_content_regular filepath r _ (store_chunk_regular filepath filepath)
                _ Hreg) as Hend.
  rewrite Hrest in Hend. exact Hend.
Qed.

Lemma extract_quiet s n m dir : State.preserves (quiet s n) (extract m dir).
Proof.
  unfold extract. destruct m as [t content [e|]|t]; auto 10 with preserves.
Qed.

Lemma extract_zip_quiet s n zp dir :
  State.preserves (quiet s n) (extract_zip unzip zp dir).
Proof.
  unfold extract_zip.
  apply StateFacts.preserves_bind; [apply StateFacts.preserves_get|]. intros w0.
  pose proof (extract_quiet s n) as He.
  auto 10 with preserves.
Qed.

Lemma unlink_regular p w :
  regular p w ->
  fs_op (unlink p) w
  = (on_disk (fun d => FS (delete p (files d)) (dirs d)) w, inr tt).
Proof.
  intros [Hf _]. unfold fs_op, unlink. rewrite Hf. reflexivity.
Qed.

(** *** What the loop over the chunks stores *)

Lemma update_bar_last n disk0 net0 sent0 bars b :
  update_bar n (World disk0 net0 sent0 (bars ++ [b]))
  = World disk0 net0 sent0 (bars ++ [Bar (desc b) (total b) (count b + n)]).
Proof.
  unfold update_bar. cbn [progress disk network sent].
  rewrite rev_unit, rev_involutive. reflexivity.
Qed.

Lemma store_chunks path : forall chunks w c0 bars b,
  files (disk w) !! path = Some c0 ->
  progress w = bars ++ [b] ->
  exists w',
    State.for_each chunks (store_chunk path) w = (w', inr tt) /\
    files (disk w') = <[ path := c0 ++ concat chunks ]> (files (disk w)) /\
    dirs (disk w') = dirs (disk w) /\
    progress w'
    = bars ++ [Bar (desc b) (total b)
                   (count b + Z.of_nat (length (concat chunks)))] /\
    network w' = network w /\
    sent w' = sent w.
Proof.
  induction chunks as [|chunk rest IH]; intros w c0 bars b Hfile Hbar.
  - exists w. cbn [State.for_each concat length].
    rewrite app_nil_r, insert_id by exact Hfile.
    rewrite Hbar. destruct b as [de to co]. cbn [desc total count].
    rewrite Z.add_0_r. repeat split.
  - destruct chunk as [|x xs].
    + destruct (IH w c0 bars b Hfile Hbar) as (w' & Hrun & Hrest).
      exists w'. cbn [State.for_each store_chunk concat app].
      split; [|exact Hrest].
      unfold State.bind, State.ret. exact Hrun.
    + set (chunk := x :: xs) in *.
      set (w1 := update_bar (Z.of_nat (length chunk)) (on_disk (append path chunk) w)).
      assert (Hstep : store_chunk path chunk w = (w1, inr tt)) by reflexivity.
      assert (Hfile1 : files (disk w1) = <[ path := c0 ++ chunk ]> (files (disk w))).
      { subst w1. destruct w as [d n s pr]. cbn in Hbar. subst pr.
        unfold on_disk. cbn [disk network sent progress].
        rewrite update_bar_last. cbn [disk append files].
        cbn in Hfile. rewrite Hfile. reflexivity. }
      assert (Hrest1 : dirs (disk w1) = dirs (disk w) /\
                       progress w1 = bars ++ [Bar (desc b) (total b)
                                                  (count b + Z.of_nat (length chunk))] /\
                       network w1 = network w /\ sent w1 = sent w).
      { subst w1. destruct w as [d n s pr]. cbn in Hbar. subst pr.
        unfold on_disk. cbn [disk network sent progress].
        rewrite update_bar_last. repeat split. }
      destruct Hrest1 as (Hd1 & Hp1 & Hn1 & Hs1).
      assert (Hlook : files (disk w1) !! path = Some (c0 ++ chunk))
        by (rewrite Hfile1; apply lookup_insert_eq).
      destruct (IH w1 (c0 ++ chunk) bars _ Hlook Hp1)
        as (w' & Hrun & Hf & Hd & Hp & Hn & Hs).
      exists w'. cbn [State.for_each].
      erewrite StateFacts.bind_returns by exact Hstep.
      split; [exact Hrun|].
      cbn [concat desc total count] in *.
      rewrite Hf, Hfile1, insert_insert_eq, <- app_assoc.
      rewrite Hd, Hd1, Hp, Hn, Hn1, Hs, Hs1.
      rewrite length_app, Nat2Z.inj_add, Z.add_assoc.
      repeat split.
Qed.

(** *** The claims about the fetcher *)

(** C8: when the answer of the server has no content-length header, the
    declared total of the progress bar is 0 and the download still ends
    well: the file holds exactly the bytes of the streamed body, in order,
    and the bar has counted them. *)
Theorem download_without_content_length url filepath w r rest d1 d2 :
  network w = Reply r :: rest ->
  (400 <=? status r) && (status r <? 600) = false ->
  content_length r = None ->
  broken r = false ->
  mkdir (parent filepath) true true (disk w) = inr d1 ->
  open_wb filepath d1 = inr d2 ->
  total_size int_of_string r = inr 0 /\
  exists w',
    download_file int_of_string url filepath w = (w', inr tt) /\
    files (disk w') !! filepath = Some (concat (body r)) /\
    (forall q, q <> filepath -> files (disk w') !! q = files d1 !! q) /\
    progress w'
    = progress w ++ [Bar (name filepath) 0 (Z.of_nat (length (concat (body r))))].
Proof.
  intros Hnet Hstatus Hlen Hbroken Hmk Hopen.
  assert (Hsize : total_size int_of_string r = inr 0)
    by (unfold total_size; rewrite Hlen; reflexivity).
  split; [exact Hsize|].
  destruct (open_wb_regular _ _ _ Hopen) as (Hfiles & Hdirs & _).
  set (w1 := World (disk w) rest (sent w ++ [url]) (progress w)).
  set (w4 := new_bar (Bar (name filepath) 0 0)
               (on_disk (fun _ => d2) (on_disk (fun _ => d1) w1))).
  assert (Hlook : files (disk w4) !! filepath = Some [])
    by (cbn; rewrite Hfiles; apply lookup_insert_eq).
  destruct (store_chunks filepath (body r) w4 [] (progress w)
              (Bar (name filepath) 0 0) Hlook eq_refl)
    as (w' & Hrun & Hf & _ & Hp & _ & _).
  exists w'. split; [|split; [|split]].
  - unfold download_file.
    erewrite StateFacts.bind_returns
      by (unfold requests_get; rewrite Hnet; reflexivity).
    cbn [tl]. fold w1.
    erewrite StateFacts.bind_returns
      by (unfold raise_for_status; rewrite Hstatus; reflexivity).
    rewrite Hsize.
    erewrite StateFacts.bind_returns by reflexivity.
    erewrite StateFacts.bind_returns
      by (unfold fs_op; cbn [disk w1]; rewrite Hmk; reflexivity).
    erewrite StateFacts.bind_returns
      by (unfold fs_op; cbn [disk on_disk]; rewrite Hopen; reflexivity).
    erewrite StateFacts.bind_returns by reflexivity.
    unfold iter_content.
    erewrite StateFacts.bind_returns by exact Hrun.
    rewrite Hbroken. reflexivity.
  - rewrite Hf. cbn [app]. apply lookup_insert_eq.
  - intros q Hq. rewrite Hf. rewrite lookup_insert_ne by congruence.
    cbn. rewrite Hfiles. apply lookup_insert_ne. congruence.
  - rewrite Hp. cbn [desc total count]. rewrite Z.add_0_l. reflexivity.
Qed.



End Facts.

(** *** The claims at the sample site *)

Import Mirror.

Lemma download_without_content_length_witness :
  total_size read_int (Response 200 None [[Byte.x50]; []; [Byte.x4b; Byte.x03]] false)
  = inr 0 /\
  exists w',
    download_file read_int dropbox_url (zip_path root)
                  (on_disk (fun d => FS (files d) ({[ checkpoints_dir root ]} ∪ dirs d))
                           (site [good]))
    = (w', inr tt) /\
    files (disk w') !! zip_path root = Some [Byte.x50; Byte.x4b; Byte.x03] /\
    (forall q, q <> zip_path root -> files (disk w') !! q = (∅ : gmap _ _) !! q) /\
    progress w' = [] ++ [Bar "ifrnet_checkpoints.zip" 0 3].
Proof.
  apply (download_without_content_length read_int dropbox_url (zip_path root)
           (on_disk (fun d => FS (files d) ({[ checkpoints_dir root ]} ∪ dirs d))
                    (site [good]))
           (Response 200 None [[Byte.x50]; []; [Byte.x4b; Byte.x03]] false) []
           (FS ∅ ({[ checkpoints_dir root ]} ∪ {[ root ]}))
           (FS (<[ zip_path root := [] ]> ∅) ({[ checkpoints_dir root ]} ∪ {[ root ]}))).
  - reflexivity.
  - reflexivity.
  - reflexivity.
  - reflexivity.
  - vm_compute. reflexivity.
  - vm_compute. reflexivity.
Defined.



End FetcherFacts.

(** ** More about rounding *)

Module PyMore.
Import Py.

(** A float above 1 and below 1.5 rounds to 1. *)
Lemma float_round_below_three_halves x :
  float_le_int x 1 = false ->
  SFltb x three_halves = true ->
  float_round x = inr 1.
Proof.
  destruct x as [s|s| |s m e]; try discriminate.
  - destruct s; discriminate.
  - destruct s; [discriminate|].
    unfold float_le_int, SFleb, SFltb.
    change (float_of_int 1) with (S754_finite false 4503599627370496 (-52)).
    change three_halves with (S754_finite false 6755399441055744 (-52)).
    cbn [SFcompare].
    rewrite (PyFacts.compare_cont_Eq m 4503599627370496).
    rewrite (PyFacts.compare_cont_Eq m 6755399441055744).
    destruct (Z.compare_spec e (-52)) as [He|He|He]; try discriminate.
    subst e.
    destruct (Pos.compare_spec m 4503599627370496) as [H1|H1|H1]; try discriminate.
    destruct (Pos.compare_spec m 6755399441055744) as [H2|H2|H2];
      try (intros ? Hlt; discriminate Hlt).
    intros _ _. apply Pos2Z.pos_lt_pos in H1, H2.
    cbn [float_round]. f_equal.
    unfold round_half_even.
    assert (Hd : 2 ^ Z.pos 52 = 4503599627370496) by reflexivity.
    rewrite Hd.
    assert (Hq : Z.pos m / 4503599627370496 = 1).
    { symmetry. apply (Z.div_unique_pos _ _ 1 (Z.pos m - 4503599627370496)); lia. }
    assert (Hr : Z.pos m mod 4503599627370496 = Z.pos m - 4503599627370496).
    { symmetry. apply (Z.mod_unique_pos _ _ 1); lia. }
    cbv zeta. rewrite Hq, Hr.
    assert (Hc : (2 * (Z.pos m - 4503599627370496) ?= 4503599627370496) = Lt)
      by (apply Z.compare_lt_iff; lia).
    rewrite Hc. reflexivity.
Qed.

End PyMore.

(** ** More about the upconverter *)

Module UpconverterMore.
Import InterpolateVideo.
Section Facts.
Context {frame tensor : Type}.
Variable compatible : tensor -> tensor -> bool.
Variable IFRNet_init : gmap string tensor.
Variable inference : gmap string tensor -> frame -> frame -> Py.float -> frame.

Local Open Scope trace_scope.

(** *** Every way [main] can end *)

Lemma main_stops_at_load a (E : env frame tensor) e :
  load_model compatible IFRNet_init E (model_path a) = inl e ->
  main compatible IFRNet_init inference a E = ([], inl e).
Proof. intros H. unfold main. rewrite H. reflexivity. Qed.

Lemma main_stops_at_open a (E : env frame tensor) model :
  load_model compatible IFRNet_init E (model_path a) = inr model ->
  videos E !! input a = None ->
  main compatible IFRNet_init inference a E = ([], inl Py.RuntimeError).
Proof.
  intros Hload Hvid. unfold main.
  rewrite Hload, TraceFacts.bind_lift, Hvid. reflexivity.
Qed.

Lemma main_stops_at_factor a (E : env frame tensor) model cap e :
  load_model compatible IFRNet_init E (model_path a) = inr model ->
  videos E !! input a = Some cap ->
  factor (target_fps a) (fps cap) = inl e ->
  main compatible IFRNet_init inference a E = ([], inl e).
Proof.
  intros Hload Hvid Hfac. unfold main.
  rewrite Hload, TraceFacts.bind_lift, Hvid.
  change (Trace.ret cap) with (@Trace.lift (event frame) _ (inr cap)).
  rewrite TraceFacts.bind_lift, Hfac. reflexivity.
Qed.

Lemma main_stops_at_round a (E : env frame tensor) model cap fac e :
  load_model compatible IFRNet_init E (model_path a) = inr model ->
  videos E !! input a = Some cap ->
  factor (target_fps a) (fps cap) = inr fac ->
  interp_count fac = inl e ->
  main compatible IFRNet_init inference a E
  = ([OpenWriter (output a) (target_fps a) (width cap) (height cap)], inl e).
Proof.
  intros Hload Hvid Hfac Hcount. unfold main.
  rewrite Hload, TraceFacts.bind_lift, Hvid.
  change (Trace.ret cap) with (@Trace.lift (event frame) _ (inr cap)).
  rewrite TraceFacts.bind_lift, Hfac, TraceFacts.bind_lift.
  cbv zeta. rewrite TraceFacts.bind_emit, Hcount. reflexivity.
Qed.

Lemma main_stops_at_last a (E : env frame tensor) model cap fac count :
  load_model compatible IFRNet_init E (model_path a) = inr model ->
  videos E !! input a = Some cap ->
  factor (target_fps a) (fps cap) = inr fac ->
  interp_count fac = inr count ->
  frames cap = [] ->
  main compatible IFRNet_init inference a E
  = ([OpenWriter (output a) (target_fps a) (width cap) (height cap)],
     inl Py.IndexError).
Proof.
  intros Hload Hvid Hfac Hcount Hfs. unfold main.
  rewrite Hload, TraceFacts.bind_lift, Hvid.
  change (Trace.ret cap) with (@Trace.lift (event frame) _ (inr cap)).
  rewrite TraceFacts.bind_lift, Hfac, TraceFacts.bind_lift.
  cbv zeta. rewrite Hfs.
  rewrite TraceFacts.bind_emit, Hcount, TraceFacts.bind_lift.
  rewrite UpconverterFacts.write_pairs_run, PyFacts.getitem_nil. reflexivity.
Qed.

(** A run ends in one of six ways. *)
Lemma main_cases a (E : env frame tensor) :
  (exists e, main compatible IFRNet_init inference a E = ([], inl e)) \/
  (exists cap e,
      videos E !! input a = Some cap /\
      main compatible IFRNet_init inference a E
      = ([OpenWriter (output a) (target_fps a) (width cap) (height cap)], inl e)) \/
  (exists model cap fac count pre last,
      load_model compatible IFRNet_init E (model_path a) = inr model /\
      videos E !! input a = Some cap /\
      factor (target_fps a) (fps cap) = inr fac /\
      interp_count fac = inr count /\
      frames cap = pre ++ [last] /\
      main compatible IFRNet_init inference a E
      = (OpenWriter (output a) (target_fps a) (width cap) (height cap)
           :: pairs_trace inference model count (frames cap)
           ++ [Write last; Release],
         inr tt)).
Proof.
  destruct (load_model compatible IFRNet_init E (model_path a)) as [e|model] eqn:Hload.
  { left. exists e. apply main_stops_at_load. exact Hload. }
  destruct (videos E !! input a) as [cap|] eqn:Hvid.
  2: { left. eexists. eapply main_stops_at_open; eassumption. }
  destruct (factor (target_fps a) (fps cap)) as [e|fac] eqn:Hfac.
  { left. exists e. eapply main_stops_at_factor; eassumption. }
  destruct (interp_count fac) as [e|count] eqn:Hcount.
  { right. left. exists cap, e. split; [reflexivity|].
    eapply main_stops_at_round; eassumption. }
  assert (Hempty : frames cap = [] \/ frames cap <> [])
    by (destruct (frames cap); [left; reflexivity | right; discriminate]).
  destruct Hempty as [Hfs|Hfs].
  { right. left. exists cap, Py.IndexError. split; [reflexivity|].
    eapply main_stops_at_last; eassumption. }
  right. right.
  destruct (UpconverterFacts.nonempty_snoc _ Hfs) as (pre & last & Hsnoc).
  exists model, cap, fac, count, pre, last.
  repeat split; try assumption.
  apply (UpconverterFacts.main_run compatible IFRNet_init inference
           a E model cap fac count pre last); assumption.
Qed.

(** *** The count *)

(** X1: the number of frames to insert is never negative: the factor is the
    int 1 or a quotient above 1, which rounds to at least 1. *)
Theorem count_never_negative target source fac N :
  factor target source = inr fac ->
  interp_count fac = inr N ->
  0 <= N.
Proof. apply UpconverterFacts.interp_count_nonneg. Qed.

(** X2: a ratio above 1 and below 1.5 rounds to 1, so nothing is inserted:
    the run copies the frames and never calls the interpolation. *)
Theorem below_one_and_a_half_copies a E model cap q :
  load_model compatible IFRNet_init E (model_path a) = inr model ->
  videos E !! input a = Some cap ->
  frames cap <> [] ->
  Py.float_truediv (target_fps a) (fps cap) = inr q ->
  Py.float_le_int q 1 = false ->
  SFltb q Py.three_halves = true ->
  interp_count (Py.Float q) = inr 0 /\
  outcome compatible IFRNet_init inference a E = inr tt /\
  output_frames compatible IFRNet_init inference a E = frames cap /\
  calls compatible IFRNet_init inference a E = [].
Proof.
  intros Hload Hvid Hne Hq Hle Hlt.
  assert (Hfac : factor (target_fps a) (fps cap) = inr (Py.Float q))
    by (unfold factor; rewrite Hq, Hle; reflexivity).
  assert (Hcount : interp_count (Py.Float q) = inr 0).
  { unfold interp_count. cbn [Py.round].
    rewrite (PyMore.float_round_below_three_halves q Hle Hlt). reflexivity. }
  split; [exact Hcount|].
  destruct (UpconverterFacts.nonempty_snoc _ Hne) as (pre & last & Hfs).
  destruct (UpconverterFacts.main_written compatible IFRNet_init inference
              _ _ _ _ _ _ _ _ Hload Hvid Hfac Hcount Hfs) as (Hok & Hw & Hc).
  unfold outcome, output_frames, calls. rewrite Hok, Hw, Hc.
  split; [reflexivity|]. split.
  - apply UpconverterFacts.schedule_stays. lia.
  - apply UpconverterFacts.no_calls. lia.
Qed.

(** *** Runs that fail *)

(** X3: a target rate that is not a number passes the test [factor <= 1]
    and stops the run at [round] with [ValueError], after the writer was
    opened: no frame is written and the writer is not released. *)
Theorem nan_target_raises a E model cap :
  load_model compatible IFRNet_init E (model_path a) = inr model ->
  videos E !! input a = Some cap ->
  target_fps a = S754_nan ->
  Py.is_zero (fps cap) = false ->
  main compatible IFRNet_init inference a E
  = ([OpenWriter (output a) (target_fps a) (width cap) (height cap)],
     inl Py.ValueError).
Proof.
  intros Hload Hvid Hnan Hzero.
  apply (main_stops_at_round a E model cap (Py.Float S754_nan)); try assumption.
  - unfold factor, Py.float_truediv. rewrite Hzero, Hnan. reflexivity.
  - reflexivity.
Qed.

(** X4: the checkpoint is loaded before the video is looked at: a missing
    checkpoint file stops the run with [FileNotFoundError], and with the
    model loaded a video that does not open stops it with [RuntimeError];
    in both cases nothing was opened or written. *)
Theorem missing_inputs_stop_early a (E : env frame tensor) :
  (checkpoints E !! model_path a = None ->
   main compatible IFRNet_init inference a E = ([], inl Py.FileNotFoundError)) /\
  (forall model,
      load_model compatible IFRNet_init E (model_path a) = inr model ->
      videos E !! input a = None ->
      main compatible IFRNet_init inference a E = ([], inl Py.RuntimeError)).
Proof.
  split.
  - intros Hnone. apply main_stops_at_load.
    unfold load_model. rewrite Hnone. reflexivity.
  - intros model. apply main_stops_at_open.
Qed.

(** *** The writer *)

Lemma between_no_writer model count (f0 f1 : frame) :
  Forall (fun ev => writer_event ev = false)
         (between_trace inference model count f0 f1).
Proof.
  unfold between_trace.
  induction (Py.range 1 (count + 1)) as [|k l IH]; cbn [flat_map]; [constructor|].
  apply Forall_app. split; [|exact IH].
  repeat constructor.
Qed.

Lemma pairs_no_writer model count (fs : list frame) :
  Forall (fun ev => writer_event ev = false) (pairs_trace inference model count fs).
Proof.
  induction fs as [|f0 [|f1 tl] IH]; [constructor | constructor |].
  change (pairs_trace inference model count (f0 :: f1 :: tl))
    with (Write f0 :: between_trace inference model count f0 f1
            ++ pairs_trace inference model count (f1 :: tl)).
  constructor; [reflexivity|].
  apply Forall_app. split; [apply between_no_writer | exact IH].
Qed.

Lemma openings_app (t1 t2 : list (event frame)) :
  openings (t1 ++ t2) = (openings t1 + openings t2)%nat.
Proof. unfold openings. rewrite List.filter_app, length_app. reflexivity. Qed.

Lemma openings_none (tr : list (event frame)) :
  Forall (fun ev => writer_event ev = false) tr -> openings tr = 0%nat.
Proof.
  induction 1 as [|ev tr Hev _ IH]; [reflexivity|].
  unfold openings in *. cbn [List.filter].
  destruct ev; try discriminate Hev; exact IH.
Qed.

(** X5: every run, however it ends, opens the writer at most once.  A run
    that ends well has opened it once, as its first event, and released it
    once, as its last event.  A run that fails has either done nothing or
    only opened the writer: it has written no frame and has not released
    the writer. *)
Theorem writer_discipline a (E : env frame tensor) :
  (openings (fst (main compatible IFRNet_init inference a E)) <= 1)%nat /\
  (outcome compatible IFRNet_init inference a E = inr tt ->
   openings (fst (main compatible IFRNet_init inference a E)) = 1%nat /\
   exists cap mid,
     videos E !! input a = Some cap /\
     fst (main compatible IFRNet_init inference a E)
     = OpenWriter (output a) (target_fps a) (width cap) (height cap)
         :: mid ++ [Release] /\
     Forall (fun ev => writer_event ev = false) mid) /\
  (forall e,
      outcome compatible IFRNet_init inference a E = inl e ->
      (fst (main compatible IFRNet_init inference a E) = [] \/
       exists cap,
         videos E !! input a = Some cap /\
         fst (main compatible IFRNet_init inference a E)
         = [OpenWriter (output a) (target_fps a) (width cap) (height cap)]) /\
      ~ In Release (fst (main compatible IFRNet_init inference a E)) /\
      output_frames compatible IFRNet_init inference a E = []).
Proof.
  unfold outcome, output_frames.
  destruct (main_cases a E) as [(e & Hrun)|[(cap & e & Hvid & Hrun)|Hrun]].
  - rewrite Hrun. cbn [fst snd]. split; [cbn; lia|]. split; [discriminate|].
    intros e' _. split; [left; reflexivity|]. split; [intros []|reflexivity].
  - rewrite Hrun. cbn [fst snd]. split; [cbn; lia|]. split; [discriminate|].
    intros e' _. split; [right; eauto|]. split; [|reflexivity].
    intros [H|[]]. discriminate.
  - destruct Hrun as (model & cap & fac & count & pre & last & _ & Hvid & _ & _ & _ & Hrun).
    rewrite Hrun. cbn [fst snd].
    assert (Hmid : Forall (fun ev => writer_event ev = false)
                     (pairs_trace inference model count (frames cap) ++ [Write last])).
    { apply Forall_app. split; [apply pairs_no_writer|]. repeat constructor. }
    assert (Hone : openings
                     (OpenWriter (output a) (target_fps a) (width cap) (height cap)
                        :: pairs_trace inference model count (frames cap)
                        ++ [Write last; Release]) = 1%nat).
    { change (OpenWriter (output a) (target_fps a) (width cap) (height cap)
                :: pairs_trace inference model count (frames cap)
                ++ [Write last; Release])
        with ([OpenWriter (output a) (target_fps a) (width cap) (height cap)]
                ++ pairs_trace inference model count (frames cap)
                ++ [Write last; Release]).
      rewrite (openings_app [OpenWriter _ _ _ _]), (openings_app (pairs_trace _ _ _ _)).
      rewrite (openings_none _ (pairs_no_writer _ _ _)). reflexivity. }
    split; [rewrite Hone; lia|]. split; [|discriminate].
    intros _. split; [exact Hone|].
    exists cap, (pairs_trace inference model count (frames cap) ++ [Write last]).
    split; [exact Hvid|]. split; [|exact Hmid].
    rewrite <- app_assoc. reflexivity.
Qed.

(** *** Calls and writes *)

Lemma at_once_nil model : written_at_once inference model [].
Proof. intros [|i] f0 f1 t H; discriminate. Qed.

Lemma at_once_app model (t1 t2 : list (event frame)) :
  written_at_once inference model t1 ->
  written_at_once inference model t2 ->
  written_at_once inference model (t1 ++ t2).
Proof.
  intros H1 H2 i f0 f1 t Hi.
  destruct (Nat.lt_ge_cases i (length t1)) as [Hlt|Hge].
  - rewrite nth_error_app1 in Hi by exact Hlt.
    pose proof (H1 _ _ _ _ Hi) as Hnext.
    assert (S i < length t1)%nat
      by (apply nth_error_Some; rewrite Hnext; discriminate).
    rewrite nth_error_app1 by assumption. exact Hnext.
  - rewrite nth_error_app2 in Hi by exact Hge.
    rewrite nth_error_app2 by lia.
    replace (S i - length t1)%nat with (S (i - length t1)) by lia.
    exact (H2 _ _ _ _ Hi).
Qed.

Lemma at_once_cons model ev (tr : list (event frame)) :
  (forall f0 f1 t, ev <> Interpolate f0 f1 t) ->
  written_at_once inference model tr ->
  written_at_once inference model (ev :: tr).
Proof.
  intros Hev H [|i] f0 f1 t Hi; cbn [nth_error] in *.
  - inversion Hi. exfalso. eapply Hev. eassumption.
  - exact (H _ _ _ _ Hi).
Qed.

Lemma at_once_between model count (f0 f1 : frame) :
  written_at_once inference model (between_trace inference model count f0 f1).
Proof.
  unfold between_trace.
  induction (Py.range 1 (count + 1)) as [|k l IH]; cbn [flat_map];
    [apply at_once_nil|].
  apply at_once_app; [|exact IH].
  intros [|[|i]] g0 g1 t Hi; cbn [nth_error] in *; try discriminate.
  - inversion Hi; subst. reflexivity.
  - destruct i; discriminate.
Qed.

Lemma at_once_pairs model count (fs : list frame) :
  written_at_once inference model (pairs_trace inference model count fs).
Proof.
  induction fs as [|f0 [|f1 tl] IH]; [apply at_once_nil | apply at_once_nil |].
  change (pairs_trace inference model count (f0 :: f1 :: tl))
    with (Write f0 :: between_trace inference model count f0 f1
            ++ pairs_trace inference model count (f1 :: tl)).
  apply at_once_cons; [discriminate|].
  apply at_once_app; [apply at_once_between | exact IH].
Qed.

(** X6: in every run, each call of the interpolation is followed at once by
    the write of the frame it returned: no computed frame is dropped,
    delayed or written out of order. *)
Theorem calls_written_at_once a (E : env frame tensor) model :
  load_model compatible IFRNet_init E (model_path a) = inr model ->
  written_at_once inference model (fst (main compatible IFRNet_init inference a E)).
Proof.
  intros Hload.
  destruct (main_cases a E) as [(e & Hrun)|[(cap & e & Hvid & Hrun)|Hrun]].
  - rewrite Hrun. apply at_once_nil.
  - rewrite Hrun. apply at_once_cons; [discriminate | apply at_once_nil].
  - destruct Hrun as (model' & cap & fac & count & pre & last & Hload' & _ & _ & _ & _ & Hrun).
    rewrite Hload in Hload'. inversion Hload'; subst model'.
    rewrite Hrun. cbn [fst].
    apply at_once_cons; [discriminate|].
    apply at_once_app; [apply at_once_pairs|].
    apply at_once_cons; [discriminate|].
    apply at_once_cons; [discriminate | apply at_once_nil].
Qed.

(** X7: a run that ends well on [n] frames with count [N] makes exactly
    [(n - 1) * N] calls of the interpolation and writes exactly [n] frames
    more than it makes calls. *)
Theorem calls_and_writes_counted a E model cap fac N :
  load_model compatible IFRNet_init E (model_path a) = inr model ->
  videos E !! input a = Some cap ->
  factor (target_fps a) (fps cap) = inr fac ->
  interp_count fac = inr N ->
  frames cap <> [] ->
  let n := Z.of_nat (length (frames cap)) in
  Z.of_nat (length (calls compatible IFRNet_init inference a E)) = (n - 1) * N /\
  Z.of_nat (length (output_frames compatible IFRNet_init inference a E))
  = n + Z.of_nat (length (calls compatible IFRNet_init inference a E)).
Proof.
  intros Hload Hvid Hfac Hcount Hne n.
  pose proof (UpconverterFacts.interp_count_nonneg _ _ _ _ Hfac Hcount) as HN.
  destruct (UpconverterFacts.nonempty_snoc _ Hne) as (pre & last & Hfs).
  destruct (UpconverterFacts.main_written compatible IFRNet_init inference
              _ _ _ _ _ _ _ _ Hload Hvid Hfac Hcount Hfs) as (_ & Hw & Hc).
  unfold output_frames, calls. rewrite Hw, Hc.
  rewrite (UpconverterFacts.schedule_length inference model N _ Hne).
  assert (Hlen : Z.of_nat (length (flat_map (pair_calls N)
                                      (combine (frames cap) (tl (frames cap)))))
                 = (n - 1) * N).
  { subst n. clear -HN Hne.
    assert (Hgen : forall ps : list (frame * frame),
               Z.of_nat (length (flat_map (pair_calls N) ps))
               = Z.of_nat (length ps) * N).
    { induction ps as [|p ps IH]; [reflexivity|].
      cbn [flat_map length]. rewrite length_app, Nat2Z.inj_add, IH.
      rewrite UpconverterFacts.pair_calls_length. lia. }
    rewrite Hgen, length_combine.
    destruct (frames cap) as [|f fs]; [congruence|].
    cbn [tl length]. lia. }
  rewrite Hlen. subst n. split; lia.
Qed.

(** *** What loading leaves in the model *)

Lemma load_state_dict_lookup (model model' : gmap string tensor)
    (sd : gmap string (entry tensor)) :
  load_state_dict compatible model sd false = inr model' ->
  forall k,
    model' !! k
    = match model !! k with
      | Some v => Some (match sd !! k with Some (Param w) => w | _ => v end)
      | None => None
      end.
Proof.
  unfold load_state_dict.
  destruct (bool_decide _) eqn:Hall; [|discriminate].
  apply bool_decide_eq_true in Hall. rewrite map_Forall_lookup in Hall.
  intros H k. inversion H; subst model'; clear H.
  rewrite lookup_omap.
  specialize (Hall k). rewrite lookup_merge in Hall. rewrite lookup_merge.
  destruct (model !! k) as [v|], (sd !! k) as [[w|m]|]; cbn in *; try reflexivity.
  - destruct (compatible v w); [reflexivity|].
    destruct (Hall _ eq_refl) as [? ?]. discriminate.
  - destruct (Hall _ eq_refl) as [? ?]. discriminate.
Qed.

(** X8: a load that succeeds leaves the model with exactly the parameter
    names of the fresh network: a name the checkpoint has takes the
    checkpoint's tensor, every other name keeps its initial one, and the
    names only the checkpoint has (in the wrapped form, also the other keys
    of the outer mapping) are dropped. *)
Theorem loading_keeps_the_names (E : env frame tensor) path model :
  load_model compatible IFRNet_init E path = inr model ->
  exists checkpoint sd,
    checkpoints E !! path = Some checkpoint /\
    ((checkpoint !! "state_dict"%string = None /\ sd = checkpoint) \/
     (exists m, checkpoint !! "state_dict"%string = Some (Nested m) /\
                sd = Param <$> m)) /\
    (forall k, is_Some (model !! k) <-> is_Some (IFRNet_init !! k)) /\
    (forall k,
        model !! k
        = match IFRNet_init !! k with
          | Some v => Some (match sd !! k with Some (Param w) => w | _ => v end)
          | None => None
          end).
Proof.
  unfold load_model.
  destruct (checkpoints E !! path) as [checkpoint|] eqn:Hfile; [|discriminate].
  destruct (checkpoint !! "state_dict"%string) as [[v|m]|] eqn:Hkey;
    [discriminate | |]; intros Hload.
  - pose proof (load_state_dict_lookup _ _ _ Hload) as Hk.
    exists checkpoint, (Param <$> m). split; [reflexivity|].
    split; [right; eauto|]. split; [|exact Hk].
    intros k. rewrite Hk. destruct (IFRNet_init !! k); split; intros [? ?]; eauto;
      discriminate.
  - pose proof (load_state_dict_lookup _ _ _ Hload) as Hk.
    exists checkpoint, checkpoint. split; [reflexivity|].
    split; [left; eauto|]. split; [|exact Hk].
    intros k. rewrite Hk. destruct (IFRNet_init !! k); split; intros [? ?]; eauto;
      discriminate.
Qed.

End Facts.

(** *** The properties at the sample videos *)

Import Sample.

Lemma count_never_negative_witness : 0 <= 2.
Proof.
  apply (count_never_negative (Py.float_of_int 90) (Py.float_of_int 30)
           (Py.Float (Py.float_of_int 3)) 2).
  - vm_compute. reflexivity.
  - vm_compute. reflexivity.
Defined.

Lemma below_one_and_a_half_copies_witness :
  interp_count (Py.Float (SFdiv Py.prec Py.emax (Py.float_of_int 36) (Py.float_of_int 30)))
  = inr 0 /\
  outcome same_size fresh blend (job "three.mp4" 36) disk = inr tt /\
  output_frames same_size fresh blend (job "three.mp4" 36) disk
  = [Shot 1; Shot 2; Shot 3] /\
  calls same_size fresh blend (job "three.mp4" 36) disk = [].
Proof.
  apply (below_one_and_a_half_copies same_size fresh blend
           (job "three.mp4" 36) disk weights (clip 30 [1; 2; 3])).
  - vm_compute. reflexivity.
  - vm_compute. reflexivity.
  - discriminate.
  - vm_compute. reflexivity.
  - vm_compute. reflexivity.
  - vm_compute. reflexivity.
Defined.

Lemma nan_target_raises_witness :
  main same_size fresh blend nan_job disk
  = ([OpenWriter "out_interpolated.mp4" S754_nan 4 4], inl Py.ValueError).
Proof.
  apply (nan_target_raises same_size fresh blend nan_job disk weights
           (clip 30 [1; 2; 3])).
  - vm_compute. reflexivity.
  - vm_compute. reflexivity.
  - reflexivity.
  - reflexivity.
Defined.

Lemma missing_inputs_stop_early_witness :
  main same_size fresh blend lost_job disk = ([], inl Py.FileNotFoundError) /\
  main same_size fresh blend (job "gone.mp4" 60) disk = ([], inl Py.RuntimeError).
Proof.
  split.
  - apply (proj1 (missing_inputs_stop_early same_size fresh blend lost_job disk)).
    vm_compute. reflexivity.
  - apply (proj2 (missing_inputs_stop_early same_size fresh blend
                    (job "gone.mp4" 60) disk) weights).
    + vm_compute. reflexivity.
    + vm_compute. reflexivity.
Defined.

Lemma writer_discipline_witness :
  (openings (fst (run "three.mp4" 90)) = 1%nat /\
   exists cap mid,
     videos disk !! "three.mp4"%string = Some cap /\
     fst (run "three.mp4" 90)
     = OpenWriter "out_interpolated.mp4" (Py.float_of_int 90) (width cap) (height cap)
         :: mid ++ [Release] /\
     Forall (fun ev => writer_event ev = false) mid) /\
  ((fst (run "none.mp4" 60) = [] \/
    exists cap,
      videos disk !! "none.mp4"%string = Some cap /\
      fst (run "none.mp4" 60)
      = [OpenWriter "out_interpolated.mp4" (Py.float_of_int 60) (width cap) (height cap)]) /\
   ~ In Release (fst (run "none.mp4" 60)) /\
   output_frames same_size fresh blend (job "none.mp4" 60) disk = []).
Proof.
  split.
  - apply (proj1 (proj2 (writer_discipline same_size fresh blend
                           (job "three.mp4" 90) disk))).
    vm_compute. reflexivity.
  - apply (proj2 (proj2 (writer_discipline same_size fresh blend
                           (job "none.mp4" 60) disk)) Py.IndexError).
    vm_compute. reflexivity.
Defined.

Lemma calls_written_at_once_witness :
  written_at_once blend weights (fst (run "three.mp4" 90)).
Proof.
  apply (calls_written_at_once same_size fresh blend (job "three.mp4" 90) disk weights).
  vm_compute. reflexivity.
Defined.

Lemma calls_and_writes_counted_witness :
  Z.of_nat (length (calls same_size fresh blend (job "three.mp4" 90) disk))
  = (3 - 1) * 2 /\
  Z.of_nat (length (output_frames same_size fresh blend (job "three.mp4" 90) disk))
  = 3 + Z.of_nat (length (calls same_size fresh blend (job "three.mp4" 90) disk)).
Proof.
  apply (calls_and_writes_counted same_size fresh blend (job "three.mp4" 90) disk
           weights (clip 30 [1; 2; 3]) (Py.Float (Py.float_of_int 3)) 2).
  - vm_compute. reflexivity.
  - vm_compute. reflexivity.
  - vm_compute. reflexivity.
  - vm_compute. reflexivity.
  - discriminate.
Defined.

Lemma loading_keeps_the_names_witness :
  exists checkpoint sd,
    checkpoints disk !! "wrapped.pth"%string = Some checkpoint /\
    ((checkpoint !! "state_dict"%string = None /\ sd = checkpoint) \/
     (exists m, checkpoint !! "state_dict"%string = Some (Nested m) /\
                sd = Param <$> m)) /\
    (forall k, is_Some (weights !! k) <-> is_Some (fresh !! k)) /\
    (forall k,
        weights !! k
        = match fresh !! k with
          | Some v => Some (match sd !! k with Some (Param w) => w | _ => v end)
          | None => None
          end).
Proof.
  apply (loading_keeps_the_names (frame := picture) same_size fresh disk "wrapped.pth"
           weights).
  vm_compute. reflexivity.
Defined.

End UpconverterMore.

(** ** More about the fetcher *)

Module FetcherMore.
Import DownloadCheckpoints.

(** *** Taking a run apart *)

Lemma bind_inv {world A B} (c : @State.M world A) (k : A -> State.M B) w w' r :
  State.bind c k w = (w', r) ->
  (exists e, c w = (w', inl e) /\ r = inl e) \/
  (exists w1 x, c w = (w1, inr x) /\ k x w1 = (w', r)).
Proof.
  unfold State.bind. destruct (c w) as [w1 [e|x]]; intros H.
  - left. inversion H; subst. eauto.
  - right. eauto.
Qed.

Lemma bind_inv_value {world A B} (c : @State.M world A) (k : A -> State.M B) w w' y :
  State.bind c k w = (w', inr y) ->
  exists w1 x, c w = (w1, inr x) /\ k x w1 = (w', inr y).
Proof.
  intros H. apply bind_inv in H as [(e & _ & He)|H]; [discriminate | exact H].
Qed.

Lemma fs_op_inv_value f w w' :
  fs_op f w = (w', inr tt) ->
  exists d, f (disk w) = inr d /\ w' = on_disk (fun _ => d) w.
Proof.
  unfold fs_op. destruct (f (disk w)) as [e|d]; intros H; inversion H; eauto.
Qed.

Lemma fs_op_inv_raise f w w' e :
  fs_op f w = (w', inl e) -> f (disk w) = inl e /\ w' = w.
Proof.
  unfold fs_op. destruct (f (disk w)) as [e'|d]; intros H; inversion H; auto.
Qed.

Lemma preserves_for_each_in {world A} (P : world -> Prop) (l : list A)
    (body : A -> @State.M world unit) :
  (forall x, In x l -> State.preserves P (body x)) ->
  State.preserves P (State.for_each l body).
Proof.
  induction l as [|x l IH]; intros Hb; cbn [State.for_each].
  - apply StateFacts.preserves_ret.
  - apply StateFacts.preserves_bind.
    + apply Hb. left. reflexivity.
    + intros _. apply IH. intros y Hy. apply Hb. right. exact Hy.
Qed.

(** *** Which exceptions the file system operations raise *)

Lemma os_mkdir_raises p : raises_fs_errors (os_mkdir p).
Proof.
  intros d e. unfold os_mkdir.
  destruct (path_exists p d); [intros H; inversion H; reflexivity|].
  destruct (is_dir (parent p) d); [discriminate|].
  destruct (is_file (parent p) d); intros H; inversion H; reflexivity.
Qed.

Lemma mkdir_one_raises p ok : raises_fs_errors (mkdir_one p ok).
Proof.
  intros d e. unfold mkdir_one.
  destruct (os_mkdir p d) as [e'|d'] eqn:Hm; [|discriminate].
  pose proof (os_mkdir_raises p d e' Hm) as He.
  destruct e'; try discriminate He;
    try (intros H; inversion H; reflexivity);
    (destruct (ok && is_dir p d); intros H; inversion H; reflexivity).
Qed.

Lemma mkdir_parents_raises rp : forall ok, raises_fs_errors (mkdir_parents rp ok).
Proof.
  induction rp as [|c up IH]; intros ok d e; cbn [mkdir_parents].
  - destruct (os_mkdir (rev []) d) as [e'|d'] eqn:Hm; [|discriminate].
    pose proof (os_mkdir_raises _ d e' Hm) as He.
    destruct e'; try discriminate He;
      try (intros H; inversion H; reflexivity);
      (destruct (ok && is_dir (rev []) d); intros H; inversion H; reflexivity).
  - destruct (os_mkdir (rev (c :: up)) d) as [e'|d'] eqn:Hm; [|discriminate].
    pose proof (os_mkdir_raises _ d e' Hm) as He.
    destruct e'; try discriminate He;
      try (destruct (ok && is_dir (rev (c :: up)) d);
           intros H; inversion H; reflexivity).
    destruct (mkdir_parents up true d) as [e1|d1] eqn:Hup.
    + intros H. inversion H; subst. exact (IH true d e Hup).
    + apply mkdir_one_raises.
Qed.

Lemma mkdir_raises p parents ok : raises_fs_errors (mkdir p parents ok).
Proof.
  unfold mkdir. destruct parents; [apply mkdir_parents_raises | apply mkdir_one_raises].
Qed.

Lemma makedirs_missing_raises p : raises_fs_errors (makedirs_missing p).
Proof.
  intros d e. unfold makedirs_missing.
  destruct (path_exists p d); [discriminate | apply mkdir_raises].
Qed.

Lemma open_wb_raises p : raises_fs_errors (open_wb p).
Proof.
  intros d e. unfold open_wb.
  destruct (is_dir p d); [intros H; inversion H; reflexivity|].
  destruct (is_dir (parent p) d); [discriminate|].
  destruct (is_file (parent p) d); intros H; inversion H; reflexivity.
Qed.

Lemma unlink_raises p : raises_fs_errors (unlink p).
Proof.
  intros d e. unfold unlink.
  destruct (is_file p d); [discriminate|].
  destruct (is_dir p d); intros H; inversion H; reflexivity.
Qed.

(** *** Which operations leave the files alone *)

Lemma os_mkdir_files p : keeps_files (os_mkdir p).
Proof.
  intros d d'. unfold os_mkdir.
  destruct (path_exists p d); [discriminate|].
  destruct (is_dir (parent p) d);
    [|destruct (is_file (parent p) d); discriminate].
  intros H. inversion H. reflexivity.
Qed.

Lemma mkdir_one_files p ok : keeps_files (mkdir_one p ok).
Proof.
  intros d d'. unfold mkdir_one.
  destruct (os_mkdir p d) as [e|d1] eqn:Hm.
  - destruct e; try discriminate;
      (destruct (ok && is_dir p d); intros H; inversion H; reflexivity).
  - intros H. inversion H; subst. exact (os_mkdir_files p d d' Hm).
Qed.

Lemma mkdir_parents_files rp : forall ok, keeps_files (mkdir_parents rp ok).
Proof.
  induction rp as [|c up IH]; intros ok d d'; cbn [mkdir_parents].
  - destruct (os_mkdir (rev []) d) as [e|d1] eqn:Hm.
    + destruct e; try discriminate;
        (destruct (ok && is_dir (rev []) d); intros H; inversion H; reflexivity).
    + intros H. inversion H; subst. exact (os_mkdir_files _ d d' Hm).
  - destruct (os_mkdir (rev (c :: up)) d) as [e|d1] eqn:Hm.
    + destruct e; try discriminate;
        try (destruct (ok && is_dir (rev (c :: up)) d);
             intros H; inversion H; reflexivity).
      destruct (mkdir_parents up true d) as [e1|d1] eqn:Hup; [discriminate|].
      intros H. rewrite (mkdir_one_files _ ok d1 d' H). exact (IH true d d1 Hup).
    + intros H. inversion H; subst. exact (os_mkdir_files _ d d' Hm).
Qed.

Lemma mkdir_files p parents ok : keeps_files (mkdir p parents ok).
Proof.
  unfold mkdir. destruct parents; [apply mkdir_parents_files | apply mkdir_one_files].
Qed.

Lemma makedirs_missing_files p : keeps_files (makedirs_missing p).
Proof.
  intros d d'. unfold makedirs_missing.
  destruct (path_exists p d); [intros H; inversion H; reflexivity | apply mkdir_files].
Qed.

Lemma mkdir_missing_files p : keeps_files (mkdir_missing p).
Proof.
  intros d d'. unfold mkdir_missing.
  destruct (is_dir p d); [intros H; inversion H; reflexivity | apply os_mkdir_files].
Qed.

(** *** Which operations remove no directory *)

Lemma is_dir_true p d : is_dir p d = true <-> p = [] \/ p ∈ dirs d.
Proof. unfold is_dir. apply bool_decide_eq_true. Qed.

Lemma os_mkdir_dirs q : keeps_dirs (os_mkdir q).
Proof.
  intros d d' p. unfold os_mkdir.
  destruct (path_exists q d); [discriminate|].
  destruct (is_dir (parent q) d);
    [|destruct (is_file (parent q) d); discriminate].
  intros H Hp. inversion H; subst d'; clear H.
  apply is_dir_true in Hp. apply is_dir_true. cbn.
  destruct Hp as [Hp|Hp]; [left; exact Hp | right].
  apply elem_of_union. right. exact Hp.
Qed.

Lemma os_mkdir_makes q d d' : os_mkdir q d = inr d' -> is_dir q d' = true.
Proof.
  unfold os_mkdir.
  destruct (path_exists q d); [discriminate|].
  destruct (is_dir (parent q) d);
    [|destruct (is_file (parent q) d); discriminate].
  intros H. inversion H. apply is_dir_true. right. cbn.
  apply elem_of_union. left. apply elem_of_singleton. reflexivity.
Qed.

Lemma mkdir_one_dirs q ok : keeps_dirs (mkdir_one q ok).
Proof.
  intros d d' p. unfold mkdir_one.
  destruct (os_mkdir q d) as [e|d1] eqn:Hm.
  - destruct e; try discriminate;
      (destruct (ok && is_dir q d); intros H; inversion H; subst; solve [auto]).
  - intros H. inversion H; subst. exact (os_mkdir_dirs q d d' p Hm).
Qed.

Lemma mkdir_parents_dirs rq : forall ok, keeps_dirs (mkdir_parents rq ok).
Proof.
  induction rq as [|c up IH]; intros ok d d' p; cbn [mkdir_parents].
  - destruct (os_mkdir (rev []) d) as [e|d1] eqn:Hm.
    + destruct e; try discriminate;
        (destruct (ok && is_dir (rev []) d); intros H; inversion H; subst; solve [auto]).
    + intros H. inversion H; subst. exact (os_mkdir_dirs _ d d' p Hm).
  - destruct (os_mkdir (rev (c :: up)) d) as [e|d1] eqn:Hm.
    + destruct e; try discriminate;
        try (destruct (ok && is_dir (rev (c :: up)) d);
             intros H; inversion H; subst; solve [auto]).
      destruct (mkdir_parents up true d) as [e1|d1] eqn:Hup; [discriminate|].
      intros H Hp. apply (mkdir_one_dirs _ ok d1 d' p H).
      exact (IH true d d1 p Hup Hp).
    + intros H. inversion H; subst. exact (os_mkdir_dirs _ d d' p Hm).
Qed.

Lemma mkdir_dirs q parents ok : keeps_dirs (mkdir q parents ok).
Proof.
  unfold mkdir. destruct parents; [apply mkdir_parents_dirs | apply mkdir_one_dirs].
Qed.

Lemma makedirs_missing_dirs q : keeps_dirs (makedirs_missing q).
Proof.
  intros d d' p. unfold makedirs_missing.
  destruct (path_exists q d); [intros H; inversion H; subst; auto | apply mkdir_dirs].
Qed.

Lemma mkdir_missing_dirs q : keeps_dirs (mkdir_missing q).
Proof.
  intros d d' p. unfold mkdir_missing.
  destruct (is_dir q d); [intros H; inversion H; subst; auto | apply os_mkdir_dirs].
Qed.

Lemma mkdir_missing_makes q d d' : mkdir_missing q d = inr d' -> is_dir q d' = true.
Proof.
  unfold mkdir_missing. destruct (is_dir q d) eqn:Hd.
  - intros H. inversion H; subst. exact Hd.
  - apply os_mkdir_makes.
Qed.

Lemma open_wb_dirs q : keeps_dirs (open_wb q).
Proof.
  intros d d' p H Hp.
  destruct (FetcherFacts.open_wb_regular _ _ _ H) as (_ & Hdirs & _).
  unfold is_dir in *. rewrite Hdirs. exact Hp.
Qed.

Lemma fs_op_made p f : keeps_dirs f -> State.preserves (made p) (fs_op f).
Proof.
  intros Hf w H. unfold fs_op.
  destruct (f (disk w)) as [e|d] eqn:Hop; cbn [fst]; [exact H|].
  exact (Hf _ _ p Hop H).
Qed.

Lemma append_made p q chunk w : made p w -> made p (on_disk (append q chunk) w).
Proof. intros H. exact H. Qed.

Lemma update_bar_made p n w : made p w -> made p (update_bar n w).
Proof. intros H. exact H. Qed.

(** *** What stays on disk *)

Lemma fs_op_holds q c f : keeps_files f -> State.preserves (holds q c) (fs_op f).
Proof.
  intros Hf w H. unfold fs_op.
  destruct (f (disk w)) as [e|d] eqn:Hop; cbn [fst]; [exact H|].
  unfold holds in *. cbn. rewrite (Hf _ _ Hop). exact H.
Qed.

Lemma open_wb_holds q c p : q <> p -> State.preserves (holds q c) (fs_op (open_wb p)).
Proof.
  intros Hne w H. unfold fs_op.
  destruct (open_wb p (disk w)) as [e|d] eqn:Hop; cbn [fst]; [exact H|].
  destruct (FetcherFacts.open_wb_regular _ _ _ Hop) as (Hfiles & _ & _).
  unfold holds in *. cbn. rewrite Hfiles, lookup_insert_ne by congruence. exact H.
Qed.

Lemma append_holds q c p chunk w :
  q <> p -> holds q c w -> holds q c (on_disk (append p chunk) w).
Proof.
  intros Hne H. unfold holds in *. cbn.
  rewrite lookup_insert_ne by congruence. exact H.
Qed.

Lemma new_bar_holds q c b w : holds q c w -> holds q c (new_bar b w).
Proof. intros H. exact H. Qed.

Lemma update_bar_holds q c n w : holds q c w -> holds q c (update_bar n w).
Proof. intros H. exact H. Qed.

Lemma requests_get_holds q c url : State.preserves (holds q c) (requests_get url).
Proof.
  intros w H. unfold requests_get.
  destruct (network w) as [|[|r] rest]; exact H.
Qed.

Lemma raise_for_status_holds q c r : State.preserves (holds q c) (raise_for_status r).
Proof.
  unfold raise_for_status.
  destruct ((400 <=? status r) && (status r <? 600)); auto with preserves.
Qed.

Lemma store_chunk_holds q c p chunk :
  q <> p -> State.preserves (holds q c) (store_chunk p chunk).
Proof.
  intros Hne. destruct chunk; cbn [store_chunk]; [auto with preserves|].
  apply StateFacts.preserves_bind; [|intros _];
    apply StateFacts.preserves_modify; intros w H.
  - apply append_holds; assumption.
  - exact H.
Qed.

#[local] Hint Resolve fs_op_holds open_wb_holds new_bar_holds update_bar_holds
  requests_get_holds raise_for_status_holds store_chunk_holds
  mkdir_files makedirs_missing_files mkdir_missing_files
  fs_op_made append_made update_bar_made
  makedirs_missing_dirs mkdir_missing_dirs open_wb_dirs : preserves.

Section Facts.
Variable int_of_string : string -> option Z.
Variable unzip : list Byte.byte -> Py.exn + list member.
Variable repo_root : list string.

Local Open Scope state_scope.

(** *** download_file *)

Lemma download_file_holds url filepath q c :
  q <> filepath ->
  State.preserves (holds q c) (download_file int_of_string url filepath).
Proof.
  intros Hne. unfold download_file, iter_content.
  apply StateFacts.preserves_bind; [apply requests_get_holds|]. intros r.
  pose proof (store_chunk_holds q c filepath) as Hchunk.
  destruct (broken r); auto 12 with preserves.
Qed.

(** The loop over the chunks never raises. *)
Lemma store_loop_runs filepath chunks : forall w,
  exists w', State.for_each chunks (store_chunk filepath) w = (w', inr tt).
Proof.
  induction chunks as [|chunk rest IH]; intros w; cbn [State.for_each].
  - eexists. reflexivity.
  - destruct chunk as [|x xs].
    + destruct (IH w) as (w' & Hrun). exists w'.
      unfold State.bind. cbn [store_chunk State.ret]. exact Hrun.
    + set (w1 := update_bar (Z.of_nat (length (x :: xs)))
                   (on_disk (append filepath (x :: xs)) w)).
      destruct (IH w1) as (w' & Hrun). exists w'.
      erewrite StateFacts.bind_returns by reflexivity. exact Hrun.
Qed.

Lemma download_file_raises url filepath w w' e :
  download_file int_of_string url filepath w = (w', inl e) ->
  e = Py.RequestException \/ e = Py.ValueError \/ fs_error e = true.
Proof.
  unfold download_file. intros H.
  apply bind_inv in H as [(e0 & Hget & [= ->])|(w1 & r & _ & H)].
  { left. unfold requests_get in Hget.
    destruct (network w) as [|[|r] rest]; inversion Hget; reflexivity. }
  apply bind_inv in H as [(e0 & Hst & [= ->])|(w2 & [] & _ & H)].
  { left. unfold raise_for_status in Hst.
    destruct ((400 <=? status r) && (status r <? 600)); inversion Hst; reflexivity. }
  apply bind_inv in H as [(e0 & Hsz & [= ->])|(w3 & n & _ & H)].
  { right. left. unfold State.lift, total_size in Hsz.
    destruct (content_length r) as [s|]; [|inversion Hsz].
    destruct (int_of_string s); inversion Hsz; reflexivity. }
  apply bind_inv in H as [(e0 & Hmk & [= ->])|(w4 & [] & _ & H)].
  { right. right. apply fs_op_inv_raise in Hmk as [Hmk _].
    exact (mkdir_raises _ _ _ _ _ Hmk). }
  apply bind_inv in H as [(e0 & Hop & [= ->])|(w5 & [] & _ & H)].
  { right. right. apply fs_op_inv_raise in Hop as [Hop _].
    exact (open_wb_raises _ _ _ Hop). }
  apply bind_inv in H as [(e0 & Hbar & [= ->])|(w6 & [] & _ & H)].
  { inversion Hbar. }
  unfold iter_content in H.
  apply bind_inv in H as [(e0 & Hloop & [= ->])|(w7 & [] & _ & H)].
  { destruct (store_loop_runs filepath (body r) w6) as (w7 & Hrun).
    rewrite Hrun in Hloop. inversion Hloop. }
  left. destruct (broken r); inversion H; reflexivity.
Qed.

(** A directory that exists is accepted by [mkdir(parents=True,
    exist_ok=True)] and left as it is. *)
Lemma mkdir_existing p d :
  is_dir p d = true -> mkdir p true true d = inr d.
Proof.
  intros Hdir. unfold mkdir.
  assert (Hos : os_mkdir (rev (rev p)) d = inl Py.FileExistsError).
  { rewrite rev_involutive. unfold os_mkdir, path_exists.
    rewrite Hdir, orb_true_r. reflexivity. }
  assert (Hok : true && is_dir (rev (rev p)) d = true)
    by (rewrite rev_involutive, Hdir; reflexivity).
  destruct (rev p) as [|c up]; cbn [mkdir_parents]; rewrite Hos, Hok; reflexivity.
Qed.

Lemma mkdir_one_makes_dir p ok d d' :
  mkdir_one p ok d = inr d' -> is_dir p d' = true.
Proof.
  unfold mkdir_one.
  destruct (os_mkdir p d) as [e|d1] eqn:Hm.
  - destruct e; try discriminate;
      (destruct (is_dir p d) eqn:Hd; rewrite ?andb_false_r, ?andb_true_r;
       [destruct ok; [intros H; inversion H; subst; exact Hd | discriminate]
       | discriminate]).
  - intros H. inversion H; subst d1; clear H.
    unfold os_mkdir in Hm.
    destruct (path_exists p d); [discriminate|].
    destruct (is_dir (parent p) d);
      [|destruct (is_file (parent p) d); discriminate].
    inversion Hm. unfold is_dir. apply bool_decide_eq_true. right.
    cbn. apply elem_of_union. left. apply elem_of_singleton. reflexivity.
Qed.

Lemma parent_snoc (dir : list string) (x : string) : parent (dir ++ [x]) = dir.
Proof. unfold parent. apply removelast_last. Qed.

(** One run of [download_file] on an answer with a good status and a
    readable size, into a place that can be written. *)
Lemma download_file_runs url filepath w r rest n d1 d2 :
  network w = Reply r :: rest ->
  (400 <=? status r) && (status r <? 600) = false ->
  total_size int_of_string r = inr n ->
  mkdir (parent filepath) true true (disk w) = inr d1 ->
  open_wb filepath d1 = inr d2 ->
  exists w',
    download_file int_of_string url filepath w
    = (w', if broken r then inl Py.RequestException else inr tt) /\
    files (disk w') !! filepath = Some (concat (body r)) /\
    dirs (disk w') = dirs d1 /\
    progress w'
    = progress w ++ [Bar (name filepath) n (Z.of_nat (length (concat (body r))))].
Proof.
  intros Hnet Hstatus Hsize Hmk Hopen.
  destruct (FetcherFacts.open_wb_regular _ _ _ Hopen) as (Hfiles & Hdirs & _).
  set (w1 := World (disk w) rest (sent w ++ [url]) (progress w)).
  set (w4 := new_bar (Bar (name filepath) n 0)
               (on_disk (fun _ => d2) (on_disk (fun _ => d1) w1))).
  assert (Hlook : files (disk w4) !! filepath = Some [])
    by (cbn; rewrite Hfiles; apply lookup_insert_eq).
  destruct (FetcherFacts.store_chunks filepath (body r) w4 [] (progress w)
              (Bar (name filepath) n 0) Hlook eq_refl)
    as (w' & Hrun & Hf & Hd & Hp & _ & _).
  exists w'. split; [|split; [|split]].
  - unfold download_file.
    erewrite StateFacts.bind_returns
      by (unfold requests_get; rewrite Hnet; reflexivity).
    cbn [tl]. fold w1.
    erewrite StateFacts.bind_returns
      by (unfold raise_for_status; rewrite Hstatus; reflexivity).
    rewrite Hsize.
    erewrite StateFacts.bind_returns by reflexivity.
    erewrite StateFacts.bind_returns
      by (unfold fs_op; cbn [disk w1]; rewrite Hmk; reflexivity).
    erewrite StateFacts.bind_returns
      by (unfold fs_op; cbn [disk on_disk]; rewrite Hopen; reflexivity).
    erewrite StateFacts.bind_returns by reflexivity.
    unfold iter_content.
    erewrite StateFacts.bind_returns by exact Hrun.
    destruct (broken r); reflexivity.
  - rewrite Hf. cbn [app]. apply lookup_insert_eq.
  - rewrite Hd. cbn. exact Hdirs.
  - rewrite Hp. cbn [desc total count]. rewrite Z.add_0_l. reflexivity.
Qed.

(** X9: when the server gives no answer or answers with an error status
    (400 to 599), [download_file] raises [RequestException] after its one
    request and before it touches the disk: no directory, no file and no
    progress bar is made. *)
Theorem refused_download_touches_nothing url filepath w :
  match network w with
  | Reply r :: _ => (400 <=? status r) && (status r <? 600) = true
  | _ => True
  end ->
  download_file int_of_string url filepath w
  = (World (disk w) (tl (network w)) (sent w ++ [url]) (progress w),
     inl Py.RequestException).
Proof.
  intros Hnet. unfold download_file, State.bind, requests_get.
  destruct (network w) as [|[|r] rest]; try reflexivity.
  unfold raise_for_status. rewrite Hnet. reflexivity.
Qed.

(** X10: a content-length header that [int] cannot read makes
    [download_file] raise [ValueError] before it touches the disk, although
    the body could have been stored. *)
Theorem unreadable_length_stops_download url filepath w r rest s :
  network w = Reply r :: rest ->
  (400 <=? status r) && (status r <? 600) = false ->
  content_length r = Some s ->
  int_of_string s = None ->
  download_file int_of_string url filepath w
  = (World (disk w) rest (sent w ++ [url]) (progress w), inl Py.ValueError).
Proof.
  intros Hnet Hstatus Hlen Hint.
  unfold download_file, State.bind, requests_get. rewrite Hnet.
  unfold raise_for_status. rewrite Hstatus.
  unfold State.ret, State.lift, total_size. rewrite Hlen, Hint. reflexivity.
Qed.

(** X12: whatever its outcome, [download_file] changes no file but the one
    it downloads to. *)
Theorem download_touches_one_file url filepath w q :
  q <> filepath ->
  files (disk (fst (download_file int_of_string url filepath w))) !! q
  = files (disk w) !! q.
Proof.
  intros Hne.
  exact (download_file_holds url filepath q (files (disk w) !! q) Hne w eq_refl).
Qed.

(** *** extract_zip *)

Lemma extract_zip_unfold zp dir w content ms :
  files (disk w) !! zp = Some content ->
  unzip content = inr ms ->
  extract_zip unzip zp dir w
  = State.for_each ms (fun file => extract file dir ;;; State.modify (update_bar 1))
      (new_bar (Bar "Extracting" (Z.of_nat (length ms)) 0) w).
Proof.
  intros Hfile Hzip. unfold extract_zip, State.bind, State.get, State.lift.
  rewrite Hfile, Hzip. reflexivity.
Qed.

Lemma extract_zip_stops zp dir w :
  match files (disk w) !! zp with
  | None => extract_zip unzip zp dir w = (w, inl Py.FileNotFoundError)
  | Some content =>
      forall e, unzip content = inl e -> extract_zip unzip zp dir w = (w, inl e)
  end.
Proof.
  unfold extract_zip, State.bind, State.get, State.lift.
  destruct (files (disk w) !! zp) as [content|]; [|reflexivity].
  intros e He. rewrite He. reflexivity.
Qed.

Lemma extract_holds q c m dir :
  q <> dir ++ target m -> State.preserves (holds q c) (extract m dir).
Proof.
  intros Hne. unfold extract.
  apply StateFacts.preserves_bind; [auto with preserves|]. intros _.
  destruct m as [t content failure|t]; cbn [target] in *.
  - apply StateFacts.preserves_bind; [apply open_wb_holds; exact Hne|]. intros _.
    apply StateFacts.preserves_bind.
    + apply StateFacts.preserves_modify. intros w H. apply append_holds; assumption.
    + intros _. destruct failure; auto with preserves.
  - auto with preserves.
Qed.

Lemma extract_loop_holds q c dir ms :
  (forall m, In m ms -> q <> dir ++ target m) ->
  State.preserves (holds q c)
    (State.for_each ms (fun file => extract file dir ;;; State.modify (update_bar 1))).
Proof.
  intros Hq. apply preserves_for_each_in. intros m Hm.
  apply StateFacts.preserves_bind; [apply extract_holds, Hq, Hm|].
  intros _. auto with preserves.
Qed.

Lemma extract_made p m dir : State.preserves (made p) (extract m dir).
Proof.
  unfold extract. destruct m as [t content [e|]|t]; auto 10 with preserves.
Qed.

Lemma extract_loop_made p dir ms :
  State.preserves (made p)
    (State.for_each ms (fun file => extract file dir ;;; State.modify (update_bar 1))).
Proof.
  pose proof (extract_made p) as He. auto 10 with preserves.
Qed.

Lemma extract_progress p m dir :
  State.preserves (fun w => progress w = p) (extract m dir).
Proof.
  assert (Hfs : forall f, State.preserves (fun w => progress w = p) (fs_op f)).
  { intros f w H. unfold fs_op. destruct (f (disk w)); exact H. }
  unfold extract. destruct m as [t content [e|]|t]; auto 10 with preserves.
Qed.

(** One member that is extracted to the end had no fault, and the bar
    moved by one. *)
Lemma extract_done m dir w w1 :
  (extract m dir ;;; State.modify (update_bar 1)) w = (w1, inr tt) ->
  fault m = None /\ progress w1 = progress (update_bar 1 w).
Proof.
  intros H. apply bind_inv_value in H as (w2 & [] & Hex & Hbar).
  pose proof (extract_progress (progress w) m dir w eq_refl) as Hp.
  rewrite Hex in Hp. cbn [fst] in Hp.
  unfold State.modify in Hbar. inversion Hbar; subst w1; clear Hbar.
  split.
  - unfold extract in Hex.
    apply bind_inv_value in Hex as (wa & [] & _ & Hex).
    destruct m as [t content [e|]|t]; try reflexivity.
    apply bind_inv_value in Hex as (wb & [] & _ & Hex).
    apply bind_inv_value in Hex as (wc & [] & _ & Hex).
    inversion Hex.
  - unfold update_bar. cbn [progress]. rewrite Hp. reflexivity.
Qed.

(** A file member that is extracted to the end is on disk. *)
Lemma extract_writes t content failure dir w w1 :
  (extract (Member t content failure) dir ;;; State.modify (update_bar 1)) w
  = (w1, inr tt) ->
  files (disk w1) !! (dir ++ t) = Some content.
Proof.
  intros H. apply bind_inv_value in H as (w2 & [] & Hex & Hbar).
  unfold extract in Hex. cbn [target] in Hex.
  apply bind_inv_value in Hex as (wa & [] & Hmk & Hex).
  apply bind_inv_value in Hex as (wb & [] & Hop & Hex).
  apply bind_inv_value in Hex as (wc & [] & Happ & Hfault).
  apply fs_op_inv_value in Hmk as (da & _ & ->).
  apply fs_op_inv_value in Hop as (db & Hop & ->).
  destruct (FetcherFacts.open_wb_regular _ _ _ Hop) as (Hfiles & _ & _).
  unfold State.modify in Happ, Hbar. inversion Happ; subst wc; clear Happ.
  destruct failure as [e|]; [inversion Hfault|].
  inversion Hfault; subst w2; clear Hfault.
  inversion Hbar; subst w1; clear Hbar.
  cbn. rewrite lookup_insert_eq, Hfiles. cbn.
  rewrite lookup_insert_eq. reflexivity.
Qed.

(** A directory entry that is extracted to the end is a directory. *)
Lemma extract_makes t dir w w1 :
  (extract (Folder t) dir ;;; State.modify (update_bar 1)) w = (w1, inr tt) ->
  made (dir ++ t) w1.
Proof.
  intros H. apply bind_inv_value in H as (w2 & [] & Hex & Hbar).
  unfold extract in Hex. cbn [target] in Hex.
  apply bind_inv_value in Hex as (wa & [] & Hmk & Hex).
  apply fs_op_inv_value in Hex as (db & Hdir & ->).
  unfold State.modify in Hbar. inversion Hbar; subst w1; clear Hbar.
  exact (mkdir_missing_makes _ _ _ Hdir).
Qed.

Lemma extract_loop_lands dir : forall ms w w',
  State.for_each ms (fun file => extract file dir ;;; State.modify (update_bar 1)) w
  = (w', inr tt) ->
  (forall pre t content failure post,
      ms = pre ++ Member t content failure :: post ->
      (forall m', In m' post -> target m' <> t) ->
      files (disk w') !! (dir ++ t) = Some content) /\
  (forall t, In (Folder t) ms -> is_dir (dir ++ t) (disk w') = true) /\
  (forall m, In m ms -> fault m = None) /\
  (forall bars b,
      progress w = bars ++ [b] ->
      progress w'
      = bars ++ [Bar (desc b) (total b) (count b + Z.of_nat (length ms))]).
Proof.
  induction ms as [|x rest IH]; intros w w' Hrun; cbn [State.for_each] in Hrun.
  - inversion Hrun; subst w'. split; [|split; [|split]].
    + intros [|y pre] t content failure post H; discriminate.
    + intros t [].
    + intros m [].
    + intros bars [de to co] ->. cbn. rewrite Z.add_0_r. reflexivity.
  - apply bind_inv_value in Hrun as (w1 & [] & Hx & Hrest).
    destruct (extract_done _ _ _ _ Hx) as (Hfault & Hbar).
    destruct (IH _ _ Hrest) as (Hland & Hdirs & Hfaults & Hbars).
    split; [|split; [|split]].
    + intros [|y pre] t content failure post Heq Hlater.
      * cbn [app] in Heq. inversion Heq; subst x rest.
        assert (Hkeep : holds (dir ++ t) (Some content) w1)
          by exact (extract_writes _ _ _ _ _ _ Hx).
        pose proof (extract_loop_holds (dir ++ t) (Some content) dir post) as Hp.
        specialize (Hp ltac:(intros m' Hm' Heq'; apply app_inv_head in Heq';
                             exact (Hlater m' Hm' (eq_sym Heq'))) w1 Hkeep).
        rewrite Hrest in Hp. exact Hp.
      * cbn [app] in Heq. inversion Heq; subst.
        exact (Hland pre t content failure post eq_refl Hlater).
    + intros t [->|Ht]; [|exact (Hdirs t Ht)].
      pose proof (extract_loop_made (dir ++ t) dir rest w1 (extract_makes _ _ _ _ Hx))
        as Hp.
      rewrite Hrest in Hp. exact Hp.
    + intros m [<-|Hm]; [exact Hfault | exact (Hfaults m Hm)].
    + intros bars b Hb.
      assert (Hb1 : progress w1
                    = bars ++ [Bar (desc b) (total b) (count b + 1)]).
      { rewrite Hbar. destruct w as [d n s pr]. cbn in Hb. subst pr.
        rewrite FetcherFacts.update_bar_last. reflexivity. }
      rewrite (Hbars _ _ Hb1). cbn [desc total count length].
      rewrite Nat2Z.inj_succ. do 3 f_equal. lia.
Qed.

(** X13: after an extraction that ended well, every file member of the
    archive is on disk under the destination with exactly its bytes, unless
    a later member has the same name (then the later one is), and every
    directory entry is a directory there; no member had a fault, and the
    bar has counted all of them. *)
Theorem extraction_lands_on_disk zp dir w w' content ms :
  files (disk w) !! zp = Some content ->
  unzip content = inr ms ->
  extract_zip unzip zp dir w = (w', inr tt) ->
  (forall pre t bytes failure post,
      ms = pre ++ Member t bytes failure :: post ->
      (forall m', In m' post -> target m' <> t) ->
      files (disk w') !! (dir ++ t) = Some bytes) /\
  (forall t, In (Folder t) ms -> is_dir (dir ++ t) (disk w') = true) /\
  (forall m, In m ms -> fault m = None) /\
  progress w'
  = progress w ++ [Bar "Extracting" (Z.of_nat (length ms)) (Z.of_nat (length ms))].
Proof.
  intros Hfile Hzip Hrun.
  rewrite (extract_zip_unfold zp dir w content ms Hfile Hzip) in Hrun.
  destruct (extract_loop_lands dir ms _ _ Hrun) as (Hland & Hdirs & Hfaults & Hbars).
  split; [exact Hland|]. split; [exact Hdirs|]. split; [exact Hfaults|].
  rewrite (Hbars (progress w) (Bar "Extracting" (Z.of_nat (length ms)) 0) eq_refl).
  reflexivity.
Qed.

Lemma extract_loop_stops dir : forall ms w w' e,
  State.for_each ms (fun file => extract file dir ;;; State.modify (update_bar 1)) w
  = (w', inl e) ->
  exists pre m post,
    ms = pre ++ m :: post /\
    (forall m0, In m0 pre -> fault m0 = None) /\
    (forall q, (forall m0, In m0 (pre ++ [m]) -> q <> dir ++ target m0) ->
               files (disk w') !! q = files (disk w) !! q) /\
    (forall bars b,
        progress w = bars ++ [b] ->
        progress w'
        = bars ++ [Bar (desc b) (total b) (count b + Z.of_nat (length pre))]).
Proof.
  induction ms as [|x rest IH]; intros w w' e Hrun; cbn [State.for_each] in Hrun.
  - inversion Hrun.
  - apply bind_inv in Hrun as [(e0 & Hx & [= <-])|(w1 & [] & Hx & Hrest)].
    + exists [], x, rest. split; [reflexivity|]. split; [intros m0 []|]. split.
      * intros q Hq.
        assert (Hp : State.preserves (holds q (files (disk w) !! q))
                       (extract x dir ;;; State.modify (update_bar 1))).
        { apply StateFacts.preserves_bind;
            [apply extract_holds, Hq; left; reflexivity|].
          intros _. auto with preserves. }
        specialize (Hp w eq_refl). rewrite Hx in Hp. exact Hp.
      * intros bars [de to co] Hb. cbn [desc total count length].
        rewrite Z.add_0_r.
        apply bind_inv in Hx as [(e1 & Hex & _)|(w2 & [] & _ & Hbar)];
          [|inversion Hbar].
        pose proof (extract_progress _ x dir w Hb) as Hp.
        rewrite Hex in Hp. exact Hp.
    + destruct (extract_done _ _ _ _ Hx) as (Hfault & Hbar).
      destruct (IH _ _ _ Hrest) as (pre & m & post & -> & Hfaults & Hfiles & Hbars).
      exists (x :: pre), m, post. split; [reflexivity|]. split; [|split].
      * intros m0 [<-|Hm0]; [exact Hfault | exact (Hfaults m0 Hm0)].
      * intros q Hq.
        rewrite Hfiles by (intros m0 Hm0; apply Hq; right; exact Hm0).
        assert (Hp : State.preserves (holds q (files (disk w) !! q))
                       (extract x dir ;;; State.modify (update_bar 1))).
        { apply StateFacts.preserves_bind;
            [apply extract_holds, Hq; left; reflexivity|].
          intros _. auto with preserves. }
        specialize (Hp w eq_refl). rewrite Hx in Hp. exact Hp.
      * intros bars b Hb.
        assert (Hb1 : progress w1
                      = bars ++ [Bar (desc b) (total b) (count b + 1)]).
        { rewrite Hbar. destruct w as [d n s pr]. cbn in Hb. subst pr.
          rewrite FetcherFacts.update_bar_last. reflexivity. }
        rewrite (Hbars _ _ Hb1). cbn [desc total count length].
        rewrite Nat2Z.inj_succ. do 3 f_equal. lia.
Qed.

(** X20: an extraction that raises while it goes through the members stops
    at the member that failed: the members before it had no fault, the
    bar has counted exactly them, and no file is changed but the targets
    of these members and of the one that failed; the later members are
    never written. *)
Theorem extraction_stops_at_first_failure zp dir w w' e content ms :
  files (disk w) !! zp = Some content ->
  unzip content = inr ms ->
  extract_zip unzip zp dir w = (w', inl e) ->
  exists pre m post,
    ms = pre ++ m :: post /\
    (forall m0, In m0 pre -> fault m0 = None) /\
    (forall q, (forall m0, In m0 (pre ++ [m]) -> q <> dir ++ target m0) ->
               files (disk w') !! q = files (disk w) !! q) /\
    progress w'
    = progress w ++ [Bar "Extracting" (Z.of_nat (length ms)) (Z.of_nat (length pre))].
Proof.
  intros Hfile Hzip Hrun.
  rewrite (extract_zip_unfold zp dir w content ms Hfile Hzip) in Hrun.
  destruct (extract_loop_stops dir ms _ _ _ Hrun)
    as (pre & m & post & Hms & Hfaults & Hfiles & Hbars).
  exists pre, m, post. split; [exact Hms|]. split; [exact Hfaults|].
  split; [exact Hfiles|].
  rewrite (Hbars (progress w) (Bar "Extracting" (Z.of_nat (length ms)) 0) eq_refl).
  reflexivity.
Qed.

(** X14: whatever its outcome, [extract_zip] changes no file but the
    targets of the members of the archive, and asks nothing of the
    server. *)
Theorem extraction_touches_only_targets zp dir w q :
  (forall content ms m,
      files (disk w) !! zp = Some content -> unzip content = inr ms ->
      In m ms -> q <> dir ++ target m) ->
  files (disk (fst (extract_zip unzip zp dir w))) !! q = files (disk w) !! q /\
  sent (fst (extract_zip unzip zp dir w)) = sent w /\
  network (fst (extract_zip unzip zp dir w)) = network w.
Proof.
  intros Hq. split.
  - pose proof (extract_zip_stops zp dir w) as Hstop.
    destruct (files (disk w) !! zp) as [content|] eqn:Hfile;
      [|rewrite Hstop; reflexivity].
    destruct (unzip content) as [e|ms] eqn:Hzip;
      [rewrite (Hstop e eq_refl); reflexivity|].
    rewrite (extract_zip_unfold zp dir w content ms Hfile Hzip).
    apply (extract_loop_holds q (files (disk w) !! q) dir ms
             (fun m Hm => Hq content ms m eq_refl Hzip Hm)).
    reflexivity.
  - exact (FetcherFacts.extract_zip_quiet unzip (sent w) (network w) zp dir w
             (conj eq_refl eq_refl)).
Qed.

(** *** main *)

Lemma steps_value w w' c :
  steps int_of_string unzip repo_root w = (w', inr c) ->
  c = 0 /\
  exists w1 w2 w3,
    fs_op (mkdir (checkpoints_dir repo_root) false true) w = (w1, inr tt) /\
    download_file int_of_string dropbox_url (zip_path repo_root) w1 = (w2, inr tt) /\
    extract_zip unzip (zip_path repo_root) (checkpoints_dir repo_root) w2
    = (w3, inr tt) /\
    fs_op (unlink (zip_path repo_root)) w3 = (w', inr tt).
Proof.
  unfold steps. intros H.
  apply bind_inv_value in H as (w1 & [] & Hmk & H).
  apply bind_inv_value in H as (w2 & [] & Hdl & H).
  apply bind_inv_value in H as (w3 & [] & Hex & H).
  apply bind_inv_value in H as (w4 & [] & Hun & H).
  inversion H; subst. split; [reflexivity|]. eauto 10.
Qed.

Lemma steps_bad_zip w w' :
  steps int_of_string unzip repo_root w = (w', inl Py.BadZipFile) ->
  regular (zip_path repo_root) w'.
Proof.
  unfold steps. intros H.
  apply bind_inv in H as [(e0 & Hmk & [= <-])|(w1 & [] & Hmk & H)].
  { apply fs_op_inv_raise in Hmk as [Hmk _].
    pose proof (mkdir_raises _ _ _ _ _ Hmk). discriminate. }
  apply bind_inv in H as [(e0 & Hdl & [= <-])|(w2 & [] & Hdl & H)].
  { destruct (download_file_raises _ _ _ _ _ Hdl) as [?|[?|?]]; discriminate. }
  pose proof (FetcherFacts.download_file_regular _ _ _ _ _ Hdl) as Hreg.
  apply bind_inv in H as [(e0 & Hex & [= <-])|(w3 & [] & Hex & H)].
  { pose proof (FetcherFacts.extract_zip_regular unzip (zip_path repo_root)
                  (zip_path repo_root) (checkpoints_dir repo_root) w2 Hreg) as H3.
    rewrite Hex in H3. exact H3. }
  apply bind_inv in H as [(e0 & Hun & [= <-])|(w4 & [] & Hun & H)].
  { apply fs_op_inv_raise in Hun as [Hun _].
    pose proof (unlink_raises _ _ _ Hun). discriminate. }
  inversion H.
Qed.

Lemma handler_bad_zip w :
  regular (zip_path repo_root) w ->
  handler repo_root Py.BadZipFile w
  = (on_disk (fun d => FS (delete (zip_path repo_root) (files d)) (dirs d)) w, inr 1).
Proof.
  intros Hreg. cbn [handler]. unfold State.bind at 1. unfold State.get.
  assert (Hex : path_exists (zip_path repo_root) (disk w) = true)
    by (unfold path_exists; destruct Hreg as [-> _]; reflexivity).
  rewrite Hex.
  erewrite StateFacts.bind_returns
    by (apply FetcherFacts.unlink_regular; exact Hreg).
  reflexivity.
Qed.

Lemma handler_other e w :
  e <> Py.BadZipFile -> handler repo_root e w = (w, inr 1).
Proof. intros He. destruct e; try reflexivity. congruence. Qed.

Lemma handler_quiet s n e : State.preserves (quiet s n) (handler repo_root e).
Proof.
  destruct e; cbn [handler]; auto with preserves.
  apply StateFacts.preserves_bind; [apply StateFacts.preserves_get|]. intros w0.
  destruct (path_exists (zip_path repo_root) (disk w0));
    pose proof FetcherFacts.fs_op_quiet; auto 10 with preserves.
Qed.

Lemma main_after_raise w w1 e :
  steps int_of_string unzip repo_root w = (w1, inl e) ->
  exists w', main int_of_string unzip repo_root w = (w', inr 1) /\
             (e <> Py.BadZipFile -> w' = w1).
Proof.
  intros Hsteps. unfold main, State.try_except. rewrite Hsteps.
  destruct (Py.exn_eq_dec e Py.BadZipFile) as [->|Hne].
  - rewrite (handler_bad_zip w1 (steps_bad_zip _ _ Hsteps)).
    eexists. split; [reflexivity|]. congruence.
  - rewrite (handler_other e w1 Hne). eauto.
Qed.

(** X15: no exception escapes [main]: whatever the disk holds, whatever the
    server answers and whatever the archive reader does, the fetcher ends
    with exit status 0 or 1. *)
Theorem main_always_exits w :
  exists w' c,
    main int_of_string unzip repo_root w = (w', inr c) /\ (c = 0 \/ c = 1).
Proof.
  destruct (steps int_of_string unzip repo_root w) as [w1 [e|c]] eqn:Hsteps.
  - destruct (main_after_raise w w1 e Hsteps) as (w' & Hrun & _).
    exists w', 1. auto.
  - destruct (steps_value _ _ _ Hsteps) as [-> _].
    exists w1, 0. split; [|auto].
    unfold main, State.try_except. rewrite Hsteps. reflexivity.
Qed.

(** X16: a run of [main] sends no request when the checkpoints directory
    cannot be made (it ends with exit status 1 and the world as it was),
    and exactly one request, using up exactly one answer, in every other
    run, however that run ends: no path retries. *)
Theorem one_request_or_none w :
  (forall e,
      mkdir (checkpoints_dir repo_root) false true (disk w) = inl e ->
      main int_of_string unzip repo_root w = (w, inr 1)) /\
  (forall d,
      mkdir (checkpoints_dir repo_root) false true (disk w) = inr d ->
      sent (fst (main int_of_string unzip repo_root w)) = sent w ++ [dropbox_url] /\
      network (fst (main int_of_string unzip repo_root w)) = tl (network w)).
Proof.
  split.
  - intros e Hmk.
    assert (Hop : fs_op (mkdir (checkpoints_dir repo_root) false true) w = (w, inl e))
      by (unfold fs_op; rewrite Hmk; reflexivity).
    assert (Hsteps : steps int_of_string unzip repo_root w = (w, inl e)).
    { unfold steps. erewrite StateFacts.bind_raises by exact Hop. reflexivity. }
    unfold main, State.try_except. rewrite Hsteps.
    apply handler_other. intros ->.
    pose proof (mkdir_raises _ _ _ _ _ Hmk). discriminate.
  - intros d Hmk.
    set (w1 := on_disk (fun _ => d) w).
    assert (Hop : fs_op (mkdir (checkpoints_dir repo_root) false true) w = (w1, inr tt))
      by (unfold fs_op; rewrite Hmk; reflexivity).
    unfold main, State.try_except.
    destruct (steps int_of_string unzip repo_root w) as [w2 r] eqn:Hsteps.
    assert (Hq : quiet (sent w ++ [dropbox_url]) (tl (network w)) w2).
    { unfold steps in Hsteps.
      erewrite StateFacts.bind_returns in Hsteps by exact Hop.
      pose proof (FetcherFacts.download_file_one_request int_of_string dropbox_url
                    (zip_path repo_root) w1) as Hone.
      change (sent w1) with (sent w) in Hone.
      change (network w1) with (network w) in Hone.
      apply bind_inv in Hsteps as [(e0 & Hdl & _)|(w3 & [] & Hdl & H)].
      { rewrite Hdl in Hone. exact Hone. }
      rewrite Hdl in Hone. cbn [fst] in Hone.
      assert (Hrest : State.preserves
                        (quiet (sent w ++ [dropbox_url]) (tl (network w)))
                        (extract_zip unzip (zip_path repo_root)
                                     (checkpoints_dir repo_root) ;;;
                         fs_op (unlink (zip_path repo_root)) ;;; State.ret 0)).
      { pose proof (FetcherFacts.extract_zip_quiet unzip).
        pose proof FetcherFacts.fs_op_quiet. auto 10 with preserves. }
      specialize (Hrest w3 Hone). rewrite H in Hrest. exact Hrest. }
    destruct r as [e|c]; cbn [fst].
    + exact (handler_quiet _ _ e w2 Hq).
    + exact Hq.
Qed.

(** X17: exit status 0 means that every step ran to its end: the archive
    was downloaded with exactly one request, extracted, and is no longer on
    disk. *)
Theorem success_removes_archive w w' :
  main int_of_string unzip repo_root w = (w', inr 0) ->
  path_exists (zip_path repo_root) (disk w') = false /\
  sent w' = sent w ++ [dropbox_url] /\
  network w' = tl (network w) /\
  exists w2 w3,
    download_file int_of_string dropbox_url (zip_path repo_root)
      (fst (fs_op (mkdir (checkpoints_dir repo_root) false true) w))
    = (w2, inr tt) /\
    extract_zip unzip (zip_path repo_root) (checkpoints_dir repo_root) w2
    = (w3, inr tt) /\
    files (disk w') = delete (zip_path repo_root) (files (disk w3)).
Proof.
  intros Hmain.
  destruct (steps int_of_string unzip repo_root w) as [w1 [e|c]] eqn:Hsteps.
  { destruct (main_after_raise w w1 e Hsteps) as (w0 & Hrun & _).
    rewrite Hrun in Hmain. discriminate. }
  assert (Hsame : (w1, inr c) = (w', (inr 0 : Py.exn + Z))).
  { rewrite <- Hmain. unfold main, State.try_except. rewrite Hsteps. reflexivity. }
  inversion Hsame; subst w1 c; clear Hsame.
  destruct (steps_value _ _ _ Hsteps) as (_ & wa & wb & wc & Hmk & Hdl & Hex & Hun).
  pose proof (FetcherFacts.download_file_regular _ _ _ _ _ Hdl) as Hreg.
  pose proof (FetcherFacts.extract_zip_regular unzip (zip_path repo_root)
                (zip_path repo_root) (checkpoints_dir repo_root) wb Hreg) as Hreg3.
  rewrite Hex in Hreg3. cbn [fst] in Hreg3.
  rewrite (FetcherFacts.unlink_regular _ _ Hreg3) in Hun.
  inversion Hun; subst w'; clear Hun.
  pose proof (FetcherFacts.fs_op_quiet (sent w) (network w)
                (mkdir (checkpoints_dir repo_root) false true) w
                (conj eq_refl eq_refl)) as Hq1.
  rewrite Hmk in Hq1. cbn [fst] in Hq1. destruct Hq1 as [Hs1 Hn1].
  pose proof (FetcherFacts.download_file_one_request int_of_string dropbox_url
                (zip_path repo_root) wa) as Hq2.
  rewrite Hdl in Hq2. cbn [fst] in Hq2. rewrite Hs1, Hn1 in Hq2.
  pose proof (FetcherFacts.extract_zip_quiet unzip _ _ (zip_path repo_root)
                (checkpoints_dir repo_root) wb Hq2) as Hq3.
  rewrite Hex in Hq3. cbn [fst] in Hq3. destruct Hq3 as [Hs3 Hn3].
  split; [|split; [exact Hs3 | split; [exact Hn3|]]].
  - destruct Hreg3 as [_ Hd].
    unfold path_exists, is_file. cbn.
    rewrite lookup_delete_eq.
    rewrite bool_decide_eq_false_2 by (intros [? ?]; discriminate).
    exact Hd.
  - exists wb, wc. rewrite Hmk. cbn [fst]. auto.
Qed.

(** X18: when the place of the checkpoints directory is taken by a regular
    file, [main] ends with exit status 1 at once: nothing is asked of the
    server and nothing on disk changes. *)
Theorem blocked_directory_exits_early w :
  regular (checkpoints_dir repo_root) w ->
  main int_of_string unzip repo_root w = (w, inr 1).
Proof.
  intros [Hfile Hdir].
  assert (Hmk : fs_op (mkdir (checkpoints_dir repo_root) false true) w
                = (w, inl Py.FileExistsError)).
  { unfold fs_op, mkdir, mkdir_one, os_mkdir, path_exists.
    rewrite Hfile, Hdir. reflexivity. }
  assert (Hsteps : steps int_of_string unzip repo_root w
                   = (w, inl Py.FileExistsError)).
  { unfold steps. erewrite StateFacts.bind_raises by exact Hmk. reflexivity. }
  unfold main, State.try_except. rewrite Hsteps. reflexivity.
Qed.

(** X19: when the stream breaks after some chunks, [main] ends with exit
    status 1 and the partial archive stays on disk with the bytes received:
    the handler of a network error removes nothing. *)
Theorem broken_stream_leaves_partial_archive w w1 r rest n :
  fs_op (mkdir (checkpoints_dir repo_root) false true) w = (w1, inr tt) ->
  is_dir (zip_path repo_root) (disk w1) = false ->
  network w = Reply r :: rest ->
  (400 <=? status r) && (status r <? 600) = false ->
  total_size int_of_string r = inr n ->
  broken r = true ->
  exists w',
    main int_of_string unzip repo_root w = (w', inr 1) /\
    files (disk w') !! zip_path repo_root = Some (concat (body r)) /\
    sent w' = sent w ++ [dropbox_url].
Proof.
  intros Hmk Hnodir Hnet Hstatus Hsize Hbroken.
  destruct (fs_op_inv_value _ _ _ Hmk) as (d1 & Hmk1 & ->).
  cbn [disk on_disk] in Hnodir.
  assert (Hdir : is_dir (checkpoints_dir repo_root) d1 = true)
    by exact (mkdir_one_makes_dir _ _ _ _ Hmk1).
  assert (Hparent : mkdir (parent (zip_path repo_root)) true true d1 = inr d1).
  { unfold zip_path. rewrite parent_snoc. apply mkdir_existing. exact Hdir. }
  assert (Hopen : open_wb (zip_path repo_root) d1
                  = inr (FS (<[ zip_path repo_root := [] ]> (files d1)) (dirs d1))).
  { unfold open_wb. rewrite Hnodir.
    unfold zip_path at 1. rewrite parent_snoc, Hdir. reflexivity. }
  destruct (download_file_runs dropbox_url (zip_path repo_root)
              (on_disk (fun _ => d1) w) r rest n d1 _ Hnet Hstatus Hsize Hparent Hopen)
    as (w2 & Hdl & Hfile & _ & _).
  rewrite Hbroken in Hdl.
  assert (Hsteps : steps int_of_string unzip repo_root w
                   = (w2, inl Py.RequestException)).
  { unfold steps.
    erewrite StateFacts.bind_returns by exact Hmk.
    erewrite StateFacts.bind_raises by exact Hdl. reflexivity. }
  exists w2. split; [|split].
  - unfold main, State.try_except. rewrite Hsteps. reflexivity.
  - exact Hfile.
  - pose proof (FetcherFacts.download_file_one_request int_of_string dropbox_url
                  (zip_path repo_root) (on_disk (fun _ => d1) w)) as [Hs _].
    rewrite Hdl in Hs. exact Hs.
Qed.

End Facts.

(** *** The properties at the sample site *)

Import Mirror.

Lemma refused_download_touches_nothing_witness :
  download_file read_int dropbox_url (zip_path root) (ready [refused; good])
  = (World (disk (ready [])) [good] [dropbox_url] [], inl Py.RequestException).
Proof.
  apply (refused_download_touches_nothing read_int dropbox_url (zip_path root)
           (ready [refused; good])).
  reflexivity.
Defined.

Lemma unreadable_length_stops_download_witness :
  download_file read_int dropbox_url (zip_path root) (ready [unreadable])
  = (World (disk (ready [])) [] [dropbox_url] [], inl Py.ValueError).
Proof.
  apply (unreadable_length_stops_download read_int dropbox_url (zip_path root)
           (ready [unreadable]) (Response 200 (Some "many"%string) [[Byte.x50]] false)
           [] "many").
  - reflexivity.
  - reflexivity.
  - reflexivity.
  - reflexivity.
Defined.

Lemma download_touches_one_file_witness :
  files (disk (fst (download_file read_int dropbox_url (zip_path root) stocked)))
    !! (root ++ ["notes.txt"%string])
  = files (disk stocked) !! (root ++ ["notes.txt"%string]).
Proof.
  apply (download_touches_one_file read_int dropbox_url (zip_path root) stocked
           (root ++ ["notes.txt"%string])).
  discriminate.
Defined.

Lemma extraction_lands_on_disk_witness :
  let w' := fst (extract_zip read_zip (zip_path root) (checkpoints_dir root) stocked) in
  (forall pre t bytes failure post,
      shipped = pre ++ Member t bytes failure :: post ->
      (forall m', In m' post -> target m' <> t) ->
      files (disk w') !! (checkpoints_dir root ++ t) = Some bytes) /\
  (forall t, In (Folder t) shipped ->
             is_dir (checkpoints_dir root ++ t) (disk w') = true) /\
  (forall m, In m shipped -> fault m = None) /\
  progress w'
  = [] ++ [Bar "Extracting" (Z.of_nat (length shipped)) (Z.of_nat (length shipped))].
Proof.
  apply (extraction_lands_on_disk read_zip (zip_path root) (checkpoints_dir root)
           stocked _ [Byte.x50; Byte.x4b; Byte.x03]).
  - vm_compute. reflexivity.
  - reflexivity.
  - vm_compute. reflexivity.
Defined.

Lemma extraction_stops_at_first_failure_witness :
  let w' := fst (extract_zip read_damaged (zip_path root) (checkpoints_dir root) stocked) in
  exists pre m post,
    [Member ["a.pth"%string] [Byte.x01] None;
     Member ["b.pth"%string] [Byte.x02] (Some Py.BadZipFile);
     Member ["c.pth"%string] [Byte.x03] None]
    = pre ++ m :: post /\
    (forall m0, In m0 pre -> fault m0 = None) /\
    (forall q, (forall m0, In m0 (pre ++ [m]) -> q <> checkpoints_dir root ++ target m0) ->
               files (disk w') !! q = files (disk stocked) !! q) /\
    progress w' = [] ++ [Bar "Extracting" (Z.of_nat 3) (Z.of_nat (length pre))].
Proof.
  apply (extraction_stops_at_first_failure read_damaged (zip_path root)
           (checkpoints_dir root) stocked _ Py.BadZipFile
           [Byte.x50; Byte.x4b; Byte.x03]).
  - vm_compute. reflexivity.
  - reflexivity.
  - vm_compute. reflexivity.
Defined.

Lemma extraction_touches_only_targets_witness :
  files (disk (fst (extract_zip read_zip (zip_path root) (checkpoints_dir root) stocked)))
    !! (root ++ ["notes.txt"%string])
  = files (disk stocked) !! (root ++ ["notes.txt"%string]) /\
  sent (fst (extract_zip read_zip (zip_path root) (checkpoints_dir root) stocked)) = [] /\
  network (fst (extract_zip read_zip (zip_path root) (checkpoints_dir root) stocked)) = [].
Proof.
  apply (extraction_touches_only_targets read_zip (zip_path root) (checkpoints_dir root)
           stocked (root ++ ["notes.txt"%string])).
  intros content ms m Hfile Hzip Hm.
  vm_compute in Hfile. inversion Hfile; subst content; clear Hfile.
  vm_compute in Hzip. inversion Hzip; subst ms; clear Hzip.
  destruct Hm as [<-|[<-|[<-|[]]]]; discriminate.
Defined.

Lemma one_request_or_none_witness :
  main read_int read_zip root blocked = (blocked, inr 1) /\
  sent (fst (fetch [Unreachable; good])) = [] ++ [dropbox_url] /\
  network (fst (fetch [Unreachable; good])) = tl [Unreachable; good].
Proof.
  split.
  - apply (proj1 (one_request_or_none read_int read_zip root blocked)
             Py.FileExistsError).
    vm_compute. reflexivity.
  - apply (proj2 (one_request_or_none read_int read_zip root
                    (site [Unreachable; good]))
             (FS ∅ ({[ checkpoints_dir root ]} ∪ {[ root ]}))).
    vm_compute. reflexivity.
Defined.

Lemma success_removes_archive_witness :
  path_exists (zip_path root) (disk (fst (fetch [good]))) = false /\
  sent (fst (fetch [good])) = [] ++ [dropbox_url] /\
  network (fst (fetch [good])) = tl [good] /\
  exists w2 w3,
    download_file read_int dropbox_url (zip_path root)
      (fst (fs_op (mkdir (checkpoints_dir root) false true) (site [good])))
    = (w2, inr tt) /\
    extract_zip read_zip (zip_path root) (checkpoints_dir root) w2 = (w3, inr tt) /\
    files (disk (fst (fetch [good]))) = delete (zip_path root) (files (disk w3)).
Proof.
  apply (success_removes_archive read_int read_zip root (site [good])
           (fst (fetch [good]))).
  vm_compute. reflexivity.
Defined.

Lemma blocked_directory_exits_early_witness :
  main read_int read_zip root blocked = (blocked, inr 1).
Proof.
  apply (blocked_directory_exits_early read_int read_zip root blocked).
  split; vm_compute; reflexivity.
Defined.

Lemma broken_stream_leaves_partial_archive_witness :
  exists w',
    fetch [cut] = (w', inr 1) /\
    files (disk w') !! zip_path root = Some [Byte.x50; Byte.x4b] /\
    sent w' = [] ++ [dropbox_url].
Proof.
  apply (broken_stream_leaves_partial_archive read_int read_zip root (site [cut])
           (fst (fs_op (mkdir (checkpoints_dir root) false true) (site [cut])))
           (Response 200 None [[Byte.x50]; [Byte.x4b]] true) [] 0).
  - vm_compute. reflexivity.
  - vm_compute. reflexivity.
  - reflexivity.
  - reflexivity.
  - reflexivity.
  - reflexivity.
Defined.

End FetcherMore.
